(** * Echogram: the session controller of [App.tsx]

    A shallow embedding of the React component [App] (the ten [useState]
    cells, its five handlers, its two effects and the conditions of its
    render function) together with the part of the browser and of the
    Gemini service that the handlers talk to, followed by the properties of
    the session lifecycle. *)

From Stdlib Require Import Bool Arith List String Ascii Lia FinFun.
From Stdlib Require Import Decimal DecimalNat DecimalString.
Import ListNotations.
Open Scope string_scope.

Set Implicit Arguments.

(** Handlers are written as pipelines of setter calls, in source order. *)
Notation "w |> f" := (f w) (at level 45, left associativity, only parsing).

(* ================================================================== *)
(** ** JavaScript values used by the component *)
(* ================================================================== *)

Module JS.

(** Strings are sequences of code units; this development covers the code
    units below 256, which is where every literal of the source lives. *)

(** Truthiness of a [string | null] value: [null] and [''] are falsy. *)
Definition truthy (v : option string) : bool :=
  match v with
  | None => false
  | Some s => negb (s =? "")
  end.

(** [String.prototype.startsWith]. *)
Definition startsWith (s searchString : string) : bool :=
  String.prefix searchString s.

(** [String.prototype.includes]. *)
Fixpoint includes (s searchString : string) : bool :=
  String.prefix searchString s
  || match s with
     | EmptyString => false
     | String _ rest => includes rest searchString
     end.

(** White space and line terminators of ECMAScript below code unit 256:
    TAB, LF, VT, FF, CR, SP and NBSP. *)
Definition isWhiteSpace (c : ascii) : bool :=
  let n := nat_of_ascii c in
  ((9 <=? n) && (n <=? 13) || (n =? 32) || (n =? 160))%nat.

Fixpoint trimStart (s : string) : string :=
  match s with
  | EmptyString => EmptyString
  | String c rest => if isWhiteSpace c then trimStart rest else s
  end.

Fixpoint trimEnd (s : string) : string :=
  match s with
  | EmptyString => EmptyString
  | String c rest =>
      match trimEnd rest with
      | EmptyString => if isWhiteSpace c then EmptyString else String c EmptyString
      | kept => String c kept
      end
  end.

(** [String.prototype.trim]. *)
Definition trim (s : string) : string := trimEnd (trimStart s).

(** A string that is empty or made of white space only. *)
Definition blank (s : string) : bool :=
  forallb isWhiteSpace (list_ascii_of_string s).

(** What a [catch] clause can receive. *)
Inductive Thrown : Type :=
| ErrorObject (message : string)   (* [err instanceof Error] *)
| NonError.                        (* any other thrown value *)

(** How an awaited promise settles. *)
Inductive Settled (A : Type) : Type :=
| Fulfilled (value : A)
| Rejected (err : Thrown).
Arguments Rejected {A} err.

End JS.
Import JS.

(* ================================================================== *)
(** ** The browser: files and object URLs *)
(* ================================================================== *)

Module Browser.

(** A [File]: the component only ever reads its media type. *)
Record File : Type := mkFile { name : string; type : string }.

(** The [n]-th URL handed out by [URL.createObjectURL]: browsers return a
    fresh [blob:] URL on every call. *)
Definition objectURL (n : nat) : string :=
  "blob:" ++ NilEmpty.string_of_uint (Nat.to_uint n).

End Browser.
Import Browser.

(* ================================================================== *)
(** ** services/GeminiService *)
(* ================================================================== *)

Module GeminiService.

(** [{ imageUrl, finalPrompt }], the value [generateImageWithPromptFromImage]
    resolves to. *)
Record GenerationResult : Type :=
  mkResult { imageUrl : string; finalPrompt : string }.

(** Modelled from the spec: the module-level client slot of
    services/GeminiService (the Credentialed Client Holder), whose source
    is not part of the repository snapshot.  It holds at most one client,
    bound to the credential that was accepted. *)
Definition Holder : Type := option string.

(** Modelled from the spec: [isClientInitialized()], a pure query on the
    holder of services/GeminiService. *)
Definition isClientInitialized (h : Holder) : bool :=
  match h with Some _ => true | None => false end.

(** Modelled from the spec: the holder after a call
    [initializeUserProvidedClient(credential)] of services/GeminiService
    has settled.  Success replaces whatever was bound; failure leaves the
    holder as it was. *)
Definition initializeUserProvidedClient_settled
    (credential : string) (outcome : Settled unit) (h : Holder) : Holder :=
  match outcome with
  | Fulfilled _ => Some credential
  | Rejected _ => h
  end.

(** The calls the component makes into the service, as they cross the
    module boundary. *)
Inductive Call : Type :=
| CallInitialize (submittedKey : string)
| CallFileToBase64 (file : File)
| CallGenerate (base64Image : string) (mimeType : string).

End GeminiService.
Import GeminiService.

(* ================================================================== *)
(** ** The state cells of [App] *)
(* ================================================================== *)

Module App.

(** One field per [useState] cell of [App], in declaration order.  There
    is no cell for the session phase. *)
Record State : Type := mkState {
  apiKey : string;
  isKeySet : bool;
  apiKeyError : option string;
  isKeyValidating : bool;
  uploadedImageFile : option File;
  uploadedImagePreview : option string;
  generatedImageUrl : option string;
  generatedPrompt : option string;
  isLoading : bool;
  error : option string
}.

(** The initial values passed to [useState]. *)
Definition initialState : State :=
  {| apiKey := ""; isKeySet := false; apiKeyError := None;
     isKeyValidating := false;
     uploadedImageFile := None; uploadedImagePreview := None;
     generatedImageUrl := None; generatedPrompt := None;
     isLoading := false; error := None |}.

Definition with_apiKey v (s : State) : State :=
  mkState v (isKeySet s) (apiKeyError s) (isKeyValidating s)
    (uploadedImageFile s) (uploadedImagePreview s) (generatedImageUrl s)
    (generatedPrompt s) (isLoading s) (error s).
Definition with_isKeySet v (s : State) : State :=
  mkState (apiKey s) v (apiKeyError s) (isKeyValidating s)
    (uploadedImageFile s) (uploadedImagePreview s) (generatedImageUrl s)
    (generatedPrompt s) (isLoading s) (error s).
Definition with_apiKeyError v (s : State) : State :=
  mkState (apiKey s) (isKeySet s) v (isKeyValidating s)
    (uploadedImageFile s) (uploadedImagePreview s) (generatedImageUrl s)
    (generatedPrompt s) (isLoading s) (error s).
Definition with_isKeyValidating v (s : State) : State :=
  mkState (apiKey s) (isKeySet s) (apiKeyError s) v
    (uploadedImageFile s) (uploadedImagePreview s) (generatedImageUrl s)
    (generatedPrompt s) (isLoading s) (error s).
Definition with_uploadedImageFile v (s : State) : State :=
  mkState (apiKey s) (isKeySet s) (apiKeyError s) (isKeyValidating s)
    v (uploadedImagePreview s) (generatedImageUrl s)
    (generatedPrompt s) (isLoading s) (error s).
Definition with_uploadedImagePreview v (s : State) : State :=
  mkState (apiKey s) (isKeySet s) (apiKeyError s) (isKeyValidating s)
    (uploadedImageFile s) v (generatedImageUrl s)
    (generatedPrompt s) (isLoading s) (error s).
Definition with_generatedImageUrl v (s : State) : State :=
  mkState (apiKey s) (isKeySet s) (apiKeyError s) (isKeyValidating s)
    (uploadedImageFile s) (uploadedImagePreview s) v
    (generatedPrompt s) (isLoading s) (error s).
Definition with_generatedPrompt v (s : State) : State :=
  mkState (apiKey s) (isKeySet s) (apiKeyError s) (isKeyValidating s)
    (uploadedImageFile s) (uploadedImagePreview s) (generatedImageUrl s)
    v (isLoading s) (error s).
Definition with_isLoading v (s : State) : State :=
  mkState (apiKey s) (isKeySet s) (apiKeyError s) (isKeyValidating s)
    (uploadedImageFile s) (uploadedImagePreview s) (generatedImageUrl s)
    (generatedPrompt s) v (error s).
Definition with_error v (s : State) : State :=
  mkState (apiKey s) (isKeySet s) (apiKeyError s) (isKeyValidating s)
    (uploadedImageFile s) (uploadedImagePreview s) (generatedImageUrl s)
    (generatedPrompt s) (isLoading s) v.

(** *** What the render function shows

    The JSX of [App] reduced to the conditions under which each part is
    in the document, and to the [disabled] attribute of the two buttons. *)
Record View : Type := mkView {
  apiKeyInput : bool;           (* [if (!isKeySet)]: the credential form *)
  changeApiKeyButton : bool;    (* "Change API Key" *)
  imageUpload : bool;           (* [!uploadedImagePreview && <ImageUpload/>] *)
  preview : bool;               (* [uploadedImagePreview && (...)], with both buttons *)
  buttonsDisabled : bool;       (* [disabled={isLoading}] *)
  spinner : bool;               (* [isLoading && !generatedImageUrl] *)
  errorAlert : bool;            (* [error && (...)] *)
  generatedImageDisplay : bool  (* [generatedImageUrl && generatedPrompt && !isLoading] *)
}.

Definition render (s : State) : View :=
  if negb (isKeySet s) then
    mkView true false false false false false false false
  else
    {| apiKeyInput := false;
       changeApiKeyButton := true;
       imageUpload := negb (truthy (uploadedImagePreview s));
       preview := truthy (uploadedImagePreview s);
       buttonsDisabled := isLoading s;
       spinner := isLoading s && negb (truthy (generatedImageUrl s));
       errorAlert := truthy (error s);
       generatedImageDisplay :=
         truthy (generatedImageUrl s) && truthy (generatedPrompt s)
         && negb (isLoading s) |}.

End App.
Import App.

(* ================================================================== *)
(** ** The running component and its environment *)
(* ================================================================== *)

Module Runtime.

(** An [async] handler suspended at one of its [await]s, with the values
    its closure captured. *)
Inductive Task : Type :=
| AwaitInitialize (submittedKey : string)     (* [handleApiKeySubmit], line 39 *)
| AwaitFileToBase64 (uploadedImageFile : File) (* [handleGenerate], line 81 *)
| AwaitGenerate (uploadedImageFile : File).    (* [handleGenerate], line 82 *)

Record World : Type := mkWorld {
  mounted : bool;                (* is [App] still in the tree? *)
  state : State;                 (* the [useState] cells *)
  holder : Holder;               (* the client slot of GeminiService *)
  created : nat;                 (* object URLs created so far *)
  revoked : list string;         (* arguments of [URL.revokeObjectURL], oldest first *)
  fileInput : option string;     (* [value] of [#dropzone-file], when in the document *)
  pending : list (nat * Task);   (* suspended handlers, by call number *)
  nextTask : nat;
  calls : list Call              (* calls made into GeminiService, oldest first *)
}.

Definition with_state v (w : World) : World :=
  mkWorld (mounted w) v (holder w) (created w) (revoked w) (fileInput w)
    (pending w) (nextTask w) (calls w).
Definition with_holder v (w : World) : World :=
  mkWorld (mounted w) (state w) v (created w) (revoked w) (fileInput w)
    (pending w) (nextTask w) (calls w).
Definition with_fileInput v (w : World) : World :=
  mkWorld (mounted w) (state w) (holder w) (created w) (revoked w) v
    (pending w) (nextTask w) (calls w).
Definition with_pending v (w : World) : World :=
  mkWorld (mounted w) (state w) (holder w) (created w) (revoked w)
    (fileInput w) v (nextTask w) (calls w).

(** A state setter returned by [useState]; React ignores it once the
    component is unmounted. *)
Definition setState (f : State -> State) (w : World) : World :=
  if mounted w then with_state (f (state w)) w else w.

(** [URL.createObjectURL(file)]. *)
Definition createObjectURL (file : File) (w : World) : string * World :=
  (objectURL (created w),
   mkWorld (mounted w) (state w) (holder w) (S (created w)) (revoked w)
     (fileInput w) (pending w) (nextTask w) (calls w)).

(** [URL.revokeObjectURL(url)]. *)
Definition revokeObjectURL (url : string) (w : World) : World :=
  mkWorld (mounted w) (state w) (holder w) (created w) (revoked w ++ [url])
    (fileInput w) (pending w) (nextTask w) (calls w).

(** Calling a service function and suspending on its promise. *)
Definition await (c : Call) (t : Task) (w : World) : World :=
  mkWorld (mounted w) (state w) (holder w) (created w) (revoked w)
    (fileInput w) (pending w ++ [(nextTask w, t)]) (S (nextTask w))
    (calls w ++ [c]).

Fixpoint lookupTask (id : nat) (l : list (nat * Task)) : option Task :=
  match l with
  | [] => None
  | (i, t) :: rest => if (i =? id)%nat then Some t else lookupTask id rest
  end.

Fixpoint removeTask (id : nat) (l : list (nat * Task)) : list (nat * Task) :=
  match l with
  | [] => []
  | (i, t) :: rest =>
      if (i =? id)%nat then rest else (i, t) :: removeTask id rest
  end.

Fixpoint replaceTask (id : nat) (t' : Task) (l : list (nat * Task))
  : list (nat * Task) :=
  match l with
  | [] => []
  | (i, t) :: rest =>
      if (i =? id)%nat then (i, t') :: rest
      else (i, t) :: replaceTask id t' rest
  end.

(** The handler with number [id] has run to its end. *)
Definition finished (id : nat) (w : World) : World :=
  with_pending (removeTask id (pending w)) w.

(** The handler with number [id] makes its next call and suspends again. *)
Definition awaitNext (id : nat) (c : Call) (t : Task) (w : World) : World :=
  mkWorld (mounted w) (state w) (holder w) (created w) (revoked w)
    (fileInput w) (replaceTask id t (pending w)) (nextTask w)
    (calls w ++ [c]).

(** The suspended calls of [handleGenerate]. *)
Definition isGeneration (p : nat * Task) : bool :=
  match snd p with
  | AwaitInitialize _ => false
  | AwaitFileToBase64 _ | AwaitGenerate _ => true
  end.

Definition inFlight (w : World) : list (nat * Task) :=
  filter isGeneration (pending w).

End Runtime.
Import Runtime.

(* ================================================================== *)
(** ** The handlers of [App] *)
(* ================================================================== *)

Module Handlers.

Definition setApiKey v := setState (with_apiKey v).
Definition setIsKeySet v := setState (with_isKeySet v).
Definition setApiKeyError v := setState (with_apiKeyError v).
Definition setIsKeyValidating v := setState (with_isKeyValidating v).
Definition setUploadedImageFile v := setState (with_uploadedImageFile v).
Definition setUploadedImagePreview v := setState (with_uploadedImagePreview v).
Definition setGeneratedImageUrl v := setState (with_generatedImageUrl v).
Definition setGeneratedPrompt v := setState (with_generatedPrompt v).
Definition setIsLoading v := setState (with_isLoading v).
Definition setError v := setState (with_error v).

(** The first effect of [App] (lines 22-28), run once after mounting. *)
Definition mountEffect (w : World) : World :=
  if isClientInitialized (holder w) then w |> setIsKeySet true else w.

(** [handleApiKeySubmit], up to its [await] (lines 30-39). *)
Definition handleApiKeySubmit (submittedKey : string) (w : World) : World :=
  if negb (truthy (Some (trim submittedKey))) then
    w |> setApiKeyError (Some "API Key cannot be empty.")
      |> setIsKeySet false
  else
    w |> setIsKeyValidating true
      |> setApiKeyError None
      |> await (CallInitialize submittedKey) (AwaitInitialize submittedKey).

(** [handleApiKeySubmit], from the [await] on (lines 40-50). *)
Definition handleApiKeySubmit_resume
    (submittedKey : string) (outcome : Settled unit) (w : World) : World :=
  match outcome with
  | Fulfilled _ =>
      w |> setApiKey submittedKey
        |> setIsKeySet true
        |> setError None
  | Rejected err =>
      let errorMessage :=
        match err with
        | ErrorObject message => message
        | NonError => "An unknown error occurred."
        end in
      w |> setApiKeyError
             (Some ("Invalid API Key or setup failed: " ++ errorMessage
                    ++ ". Please check your key and try again."))
        |> setIsKeySet false
  end
  |> setIsKeyValidating false.

(** [handleImageUpload] (lines 53-60). *)
Definition handleImageUpload (file : File) (w : World) : World :=
  let w := w |> setUploadedImageFile (Some file)
             |> setError None
             |> setGeneratedImageUrl None
             |> setGeneratedPrompt None in
  let (objectUrl, w) := createObjectURL file w in
  w |> setUploadedImagePreview (Some objectUrl).

(** The cleanup of the second effect (lines 63-67), for the preview it
    captured. *)
Definition previewCleanup (uploadedImagePreview : option string) (w : World)
  : World :=
  match uploadedImagePreview with
  | Some url =>
      if truthy (Some url) && startsWith url "blob:"
      then revokeObjectURL url w else w
  | None => w
  end.

(** [handleGenerate], up to its first [await] (lines 70-81). *)
Definition handleGenerate (w : World) : World :=
  match uploadedImageFile (state w) with
  | None => w |> setError (Some "Please upload an image first.")
  | Some file =>
      w |> setIsLoading true
        |> setError None
        |> setGeneratedImageUrl None
        |> setGeneratedPrompt None
        |> await (CallFileToBase64 file) (AwaitFileToBase64 file)
  end.

(** The message the [catch] clause of [handleGenerate] works with. *)
Definition generationErrorMessage (err : Thrown) : string :=
  match err with
  | ErrorObject message => message
  | NonError => "An unknown error occurred during image generation."
  end.

(** The test of line 88. *)
Definition isApiKeyIssue (errorMessage : string) : bool :=
  includes errorMessage "API Key"
  || includes errorMessage "client is not initialized".

(** The [catch] and [finally] clauses of [handleGenerate] (lines 85-96). *)
Definition handleGenerate_catch (err : Thrown) (w : World) : World :=
  let errorMessage := generationErrorMessage err in
  (if isApiKeyIssue errorMessage then
     w |> setError
            (Some ("Generation Failed: API Key issue. " ++ errorMessage
                   ++ ". Please try setting your API key again."))
       |> setIsKeySet false
   else
     w |> setError (Some ("Generation Failed: " ++ errorMessage ++ ".")))
  |> setIsLoading false.

(** [handleGenerate] resumed after [fileToBase64] (line 81 to 82). *)
Definition handleGenerate_encoded
    (id : nat) (uploadedImageFile : File) (outcome : Settled string)
    (w : World) : World :=
  match outcome with
  | Fulfilled base64Image =>
      w |> awaitNext id (CallGenerate base64Image (type uploadedImageFile))
             (AwaitGenerate uploadedImageFile)
  | Rejected err => w |> finished id |> handleGenerate_catch err
  end.

(** [handleGenerate] resumed after [generateImageWithPromptFromImage]
    (lines 82-84, then 94-96). *)
Definition handleGenerate_resume
    (id : nat) (outcome : Settled GenerationResult) (w : World) : World :=
  match outcome with
  | Fulfilled result =>
      w |> finished id
        |> setGeneratedImageUrl (Some (imageUrl result))
        |> setGeneratedPrompt (Some (finalPrompt result))
        |> setIsLoading false
  | Rejected err => w |> finished id |> handleGenerate_catch err
  end.

(** [handleReselectImage] (lines 99-110). *)
Definition handleReselectImage (w : World) : World :=
  let w := w |> setUploadedImageFile None
             |> setUploadedImagePreview None
             |> setGeneratedImageUrl None
             |> setGeneratedPrompt None
             |> setError None
             |> setIsLoading false in
  match fileInput w with
  | Some _ => with_fileInput (Some "") w
  | None => w
  end.

(** [handleChangeApiKey] (lines 112-122). *)
Definition handleChangeApiKey (w : World) : World :=
  w |> setIsKeySet false
    |> setApiKey ""
    |> setApiKeyError None
    |> setUploadedImageFile None
    |> setUploadedImagePreview None
    |> setGeneratedImageUrl None
    |> setGeneratedPrompt None
    |> setError None.

End Handlers.
Import Handlers.

(* ================================================================== *)
(** ** Rendering, events and steps *)
(* ================================================================== *)

Module Session.

Definition view (w : World) : View := render (state w).

Definition sameValue (a b : option string) : bool :=
  match a, b with
  | None, None => true
  | Some x, Some y => x =? y
  | _, _ => false
  end.

(** The file input belongs to [ImageUpload]: it is in the document exactly
    while that component is rendered, and starts out empty. *)
Definition syncFileInput (w : World) : World :=
  if mounted w && imageUpload (view w) then
    match fileInput w with
    | Some _ => w
    | None => with_fileInput (Some "") w
    end
  else with_fileInput None w.

(** React commits the new render: the second effect of [App] depends on
    [uploadedImagePreview], so when that value differs from the one of the
    previous commit [prev] the cleanup installed then is run. *)
Definition commit (prev : World) (w : World) : World :=
  (if sameValue (uploadedImagePreview (state prev))
                (uploadedImagePreview (state w))
   then w
   else previewCleanup (uploadedImagePreview (state prev)) w)
  |> syncFileInput.

(** Mounting [App] while the service holds [h]. *)
Definition mount (h : Holder) : World :=
  mkWorld true initialState h 0 [] None [] 0 []
  |> mountEffect |> syncFileInput.

(** Unmounting runs the pending cleanup of every effect. *)
Definition unmount (w : World) : World :=
  let w := previewCleanup (uploadedImagePreview (state w)) w in
  mkWorld false (state w) (holder w) (created w) (revoked w) None
    (pending w) (nextTask w) (calls w).

Inductive Event : Type :=
| SubmitApiKey (submittedKey : string)  (* [onSetApiKey] of ApiKeyInput *)
| UploadImage (file : File)             (* [onImageUpload] of ImageUpload *)
| ClickGenerate                         (* [onClick={handleGenerate}] *)
| ClickReselect                         (* [onClick={handleReselectImage}] *)
| ClickChangeApiKey                     (* [onClick={handleChangeApiKey}] *)
| InitializeSettled (id : nat) (outcome : Settled unit)
| FileToBase64Settled (id : nat) (outcome : Settled string)
| GenerateSettled (id : nat) (outcome : Settled GenerationResult)
| Unmount.

(** One event: the handler (or the resumed part of one) runs, then React
    commits.  An event handler can only run on a mounted component; a
    promise settles whether or not the component is still there. *)
Definition step (w : World) (e : Event) : World :=
  match e with
  | SubmitApiKey submittedKey =>
      if mounted w then commit w (handleApiKeySubmit submittedKey w) else w
  | UploadImage file =>
      if mounted w then commit w (handleImageUpload file w) else w
  | ClickGenerate =>
      if mounted w then commit w (handleGenerate w) else w
  | ClickReselect =>
      if mounted w then commit w (handleReselectImage w) else w
  | ClickChangeApiKey =>
      if mounted w then commit w (handleChangeApiKey w) else w
  | InitializeSettled id outcome =>
      match lookupTask id (pending w) with
      | Some (AwaitInitialize submittedKey) =>
          w |> finished id
            |> (fun w' => with_holder
                  (initializeUserProvidedClient_settled submittedKey outcome
                     (holder w')) w')
            |> handleApiKeySubmit_resume submittedKey outcome
            |> commit w
      | _ => w
      end
  | FileToBase64Settled id outcome =>
      match lookupTask id (pending w) with
      | Some (AwaitFileToBase64 file) =>
          w |> handleGenerate_encoded id file outcome |> commit w
      | _ => w
      end
  | GenerateSettled id outcome =>
      match lookupTask id (pending w) with
      | Some (AwaitGenerate _) =>
          w |> handleGenerate_resume id outcome |> commit w
      | _ => w
      end
  | Unmount => if mounted w then unmount w else w
  end.

Definition run (w : World) (es : list Event) : World := fold_left step es w.

(** The states the component can be in: any order of handler calls and of
    settling promises. *)
Inductive reachable : World -> Prop :=
| reach_mount : forall h, reachable (mount h)
| reach_step : forall w e, reachable w -> reachable (step w e).

(** *** Events as the rendered page offers them

    A handler is wired to one control; the control has to be in the
    document and not disabled for the event to reach the handler.
    ApiKeyInput's [handleSubmit] forwards only when it is not validating. *)
Definition offered (w : World) (e : Event) : bool :=
  match e with
  | SubmitApiKey _ =>
      mounted w && apiKeyInput (view w) && negb (isKeyValidating (state w))
  | UploadImage _ => mounted w && imageUpload (view w)
  | ClickGenerate | ClickReselect =>
      mounted w && preview (view w) && negb (buttonsDisabled (view w))
  | ClickChangeApiKey => mounted w && changeApiKeyButton (view w)
  | InitializeSettled _ _ | FileToBase64Settled _ _ | GenerateSettled _ _
  | Unmount => true
  end.

Definition uiStep (w : World) (e : Event) : World :=
  if offered w e then step w e else w.

Definition uiRun (w : World) (es : list Event) : World :=
  fold_left uiStep es w.

Inductive uiReachable : World -> Prop :=
| ui_mount : forall h, uiReachable (mount h)
| ui_step : forall w e, uiReachable w -> uiReachable (uiStep w e).

(** *** The session phase

    Nothing stores the phase; it is read off the four facts the render
    function branches on. *)
Inductive Phase : Type :=
| NeedsCredential | Ready | ImageSelected | Generating | Generated.

Record Facts : Type := mkFacts {
  bound : bool;          (* a credential has been accepted *)
  imageSelected : bool;  (* a preview is held *)
  generating : bool;     (* a generation is in flight *)
  resultPresent : bool   (* image locator and prompt are there *)
}.

Definition facts (s : State) : Facts :=
  {| bound := isKeySet s;
     imageSelected := truthy (uploadedImagePreview s);
     generating := isLoading s;
     resultPresent :=
       truthy (generatedImageUrl s) && truthy (generatedPrompt s) |}.

Definition phaseOf (f : Facts) : Phase :=
  if negb (bound f) then NeedsCredential
  else if generating f then Generating
  else if resultPresent f then Generated
  else if imageSelected f then ImageSelected
  else Ready.

Definition phase (w : World) : Phase := phaseOf (facts (state w)).

(** The handles the component currently owns. *)
Definition held (w : World) : list string :=
  if mounted w then
    match uploadedImagePreview (state w) with
    | Some url => [url]
    | None => []
    end
  else [].

(** Every URL [URL.createObjectURL] has returned, oldest first. *)
Definition allocated (w : World) : list string :=
  map objectURL (seq 0 (created w)).

End Session.
Import Session.

(* ================================================================== *)
(** ** Sample runs *)
(* ================================================================== *)

Module Samples.

Definition imgA : File := mkFile "a.png" "image/png".
Definition imgB : File := mkFile "b.jpg" "image/jpeg".
Definition r1 : GenerationResult := mkResult "u1" "p1".
Definition r2 : GenerationResult := mkResult "u2" "p2".

(** A session that has accepted ["good-key"]. *)
Definition toReady : list Event :=
  [SubmitApiKey "good-key"; InitializeSettled 0 (Fulfilled tt)].

Definition ready : World := run (mount None) toReady.

(** ... and has image A selected and a generation in flight. *)
Definition toGeneratingA : list Event :=
  toReady ++ [UploadImage imgA; ClickGenerate;
              FileToBase64Settled 1 (Fulfilled "QUJD")].

Definition generatingA : World := run (mount None) toGeneratingA.

End Samples.
Import Samples.

(* ================================================================== *)
(** ** Derived notions used in the statements *)
(* ================================================================== *)

Open Scope list_scope.

Module Notions.

(** The cells after the [catch] and [finally] clauses of [handleGenerate]. *)
Definition afterGenerationFailure (err : Thrown) (s : State) : State :=
  let errorMessage := generationErrorMessage err in
  if isApiKeyIssue errorMessage then
    s |> with_error
           (Some ("Generation Failed: API Key issue. " ++ errorMessage
                  ++ ". Please try setting your API key again.")%string)
      |> with_isKeySet false
      |> with_isLoading false
  else
    s |> with_error (Some ("Generation Failed: " ++ errorMessage ++ ".")%string)
      |> with_isLoading false.

(** The cells after [handleReselectImage]. *)
Definition afterReselect (s : State) : State :=
  s |> with_uploadedImageFile None
    |> with_uploadedImagePreview None
    |> with_generatedImageUrl None
    |> with_generatedPrompt None
    |> with_error None
    |> with_isLoading false.

(** The cells [handleReselectImage] clears that can be non-empty in phase
    Ready. *)
Definition clearedByReselect (s : State) : State :=
  s |> with_generatedImageUrl None |> with_generatedPrompt None
    |> with_error None.

(** What the cleanup of the preview effect passes to
    [URL.revokeObjectURL]. *)
Definition released (uploadedImagePreview : option string) : list string :=
  match uploadedImagePreview with
  | Some url => if truthy (Some url) && startsWith url "blob:" then [url] else []
  | None => []
  end.

(** *** Invariants of the reachable states *)

(** The controller believes a credential is set only while the service
    holds a client. *)
Definition inv_bound (w : World) : Prop :=
  isKeySet (state w) = true -> isClientInitialized (holder w) = true.

(** While the in-flight flag is up no result is stored. *)
Definition inv_loading (w : World) : Prop :=
  isLoading (state w) = true ->
  generatedImageUrl (state w) = None /\ generatedPrompt (state w) = None.

(** File and preview are set and cleared together, and a preview is one of
    the object URLs created so far. *)
Definition inv_image (w : World) : Prop :=
  (uploadedImageFile (state w) = None <-> uploadedImagePreview (state w) = None)
  /\ forall url, uploadedImagePreview (state w) = Some url ->
                 exists i, i < created w /\ url = objectURL i.

(** Call numbers are handed out in increasing order. *)
Definition inv_ids (w : World) : Prop :=
  Forall (fun q => fst q < nextTask w) (pending w).

(** The file input is in the document, empty, exactly while ImageUpload is
    rendered. *)
Definition inv_dom (w : World) : Prop :=
  fileInput w = if mounted w && imageUpload (view w) then Some "" else None.

(** Every object URL created so far has been released, in creation order,
    except the one the component still holds. *)
Definition inv_handles (w : World) : Prop :=
  revoked w ++ held w = allocated w.

(** The invariants together. *)
Record Inv (w : World) : Prop := mkInv {
  Inv_bound : inv_bound w;
  Inv_loading : inv_loading w;
  Inv_image : inv_image w;
  Inv_ids : inv_ids w;
  Inv_dom : inv_dom w;
  Inv_handles : inv_handles w
}.

(** How a handler may leave the preview: as it was, cleared, or replaced
    by a URL it has just created. *)
Definition preview_kept (prev w : World) : Prop :=
  uploadedImagePreview (state w) = uploadedImagePreview (state prev)
  /\ created w = created prev.

Definition preview_cleared (prev w : World) : Prop :=
  mounted prev = true
  /\ uploadedImagePreview (state w) = None
  /\ created w = created prev.

Definition preview_replaced (prev w : World) : Prop :=
  mounted prev = true
  /\ uploadedImagePreview (state w) = Some (objectURL (created prev))
  /\ created w = S (created prev).

(** In a session driven through the page, the in-flight flag is up exactly
    while a generation call is pending, and there is never a second one. *)
Definition inv_single (w : World) : Prop :=
  List.length (inFlight w) <= 1
  /\ (mounted w = true -> isLoading (state w) = false -> inFlight w = []).

End Notions.
Import Notions.

(* ================================================================== *)
(** ** components/ApiKeyInput *)
(* ================================================================== *)

Module ApiKeyInput.

(** The props [App] passes at lines 133-137; [onSetApiKey] is
    [handleApiKeySubmit]. *)
Record Props : Type := mkProps { error : option string; isLoading : bool }.

Definition propsFrom (s : State) : Props :=
  {| error := App.apiKeyError s; isLoading := App.isKeyValidating s |}.

(** [handleSubmit] (lines 14-19) for the current [localApiKey]: the
    argument [onSetApiKey] is called with, if it is called. *)
Definition handleSubmit (p : Props) (localApiKey : string) : option string :=
  if negb (isLoading p) then Some localApiKey else None.

(** [disabled={isLoading}] of the input (line 38). *)
Definition inputDisabled (p : Props) : bool := isLoading p.

(** [disabled={isLoading || !localApiKey.trim()}] of the button (line 54). *)
Definition submitDisabled (p : Props) (localApiKey : string) : bool :=
  isLoading p || negb (truthy (Some (trim localApiKey))).

(** The alert of lines 46-50. *)
Definition errorShown (p : Props) : option string :=
  if truthy (error p) then error p else None.

(** The text of the button (lines 58-65). *)
Definition buttonText (p : Props) : string :=
  if isLoading p then "Validating..." else "Set API Key & Continue".

End ApiKeyInput.

(* ================================================================== *)
(** ** The upload zone (ImageUpload) *)
(* ================================================================== *)

Module ImageUpload.

(** [files && files[0]]: the first entry of a file list that may be
    missing or empty. *)
Definition firstFile (files : option (list File)) : option File :=
  match files with
  | Some (file :: _) => Some file
  | Some [] | None => None
  end.

(** [handleFileChange] (lines 8-12): the argument of [onImageUpload], if it
    is called. *)
Definition handleFileChange (files : option (list File)) : option File :=
  firstFile files.

(** [handleDragOver] and [handleDragLeave] (lines 17-25): the new
    [isDragging]. *)
Definition handleDragOver (isDragging : bool) : bool := true.
Definition handleDragLeave (isDragging : bool) : bool := false.

(** [handleDrop] (lines 27-33): the new [isDragging] and the argument of
    [onImageUpload], if it is called. *)
Definition handleDrop (isDragging : bool) (files : option (list File))
  : bool * option File :=
  (false, firstFile files).

(** The classes the label gets from [isDragging] (line 40). *)
Definition dragClasses (isDragging : bool) : string :=
  if isDragging then "border-purple-500 bg-gray-700"
  else "hover:border-gray-500".

End ImageUpload.

(* ================================================================== *)
(** ** The page: [App] with its two stateful children *)
(* ================================================================== *)

Module Page.

Record Page : Type := mkPage {
  world : World;
  localApiKey : string;   (* [useState('')] of ApiKeyInput *)
  isDragging : bool       (* [useState(false)] of ImageUpload *)
}.

Definition formShown (w : World) : bool := mounted w && apiKeyInput (view w).
Definition zoneShown (w : World) : bool := mounted w && imageUpload (view w).

(** After a commit of [App]: a child that is no longer rendered loses its
    state, and starts from its initial state when rendered again. *)
Definition rendered (p : Page) (w' : World) : Page :=
  mkPage w'
    (if formShown w' then localApiKey p else "")
    (if zoneShown w' then isDragging p else false).

Definition initial (h : Holder) : Page := mkPage (mount h) "" false.

Inductive Event : Type :=
| TypeKey (value : string)                 (* [onChange] of the key input *)
| PressSubmit                              (* the submit button of the form *)
| DragOver
| DragLeave
| Drop (files : option (list File))
| PickFiles (files : option (list File))   (* [onChange] of the file input *)
| PressGenerate
| PressReselect
| PressChangeApiKey
| Settled (e : Session.Event)              (* a promise settles *)
| Teardown.

(** The events of [App] that are settlements of promises. *)
Definition isSettlement (e : Session.Event) : bool :=
  match e with
  | InitializeSettled _ _ | FileToBase64Settled _ _ | GenerateSettled _ _ => true
  | _ => false
  end.

Definition step (p : Page) (e : Event) : Page :=
  let w := world p in
  let props := ApiKeyInput.propsFrom (state w) in
  match e with
  | TypeKey value =>
      if formShown w && negb (ApiKeyInput.inputDisabled props)
      then mkPage w value (isDragging p) else p
  | PressSubmit =>
      if formShown w
         && negb (ApiKeyInput.submitDisabled props (localApiKey p))
      then
        match ApiKeyInput.handleSubmit props (localApiKey p) with
        | Some submittedKey =>
            rendered p (Session.step w (SubmitApiKey submittedKey))
        | None => p
        end
      else p
  | DragOver =>
      if zoneShown w
      then mkPage w (localApiKey p) (ImageUpload.handleDragOver (isDragging p))
      else p
  | DragLeave =>
      if zoneShown w
      then mkPage w (localApiKey p) (ImageUpload.handleDragLeave (isDragging p))
      else p
  | Drop files =>
      if zoneShown w then
        let (dragging, forwarded) :=
          ImageUpload.handleDrop (isDragging p) files in
        let p' := mkPage w (localApiKey p) dragging in
        match forwarded with
        | Some file => rendered p' (Session.step w (UploadImage file))
        | None => p'
        end
      else p
  | PickFiles files =>
      if zoneShown w then
        match ImageUpload.handleFileChange files with
        | Some file => rendered p (Session.step w (UploadImage file))
        | None => p
        end
      else p
  | PressGenerate => rendered p (uiStep w ClickGenerate)
  | PressReselect => rendered p (uiStep w ClickReselect)
  | PressChangeApiKey => rendered p (uiStep w ClickChangeApiKey)
  | Settled e' =>
      if isSettlement e' then rendered p (Session.step w e') else p
  | Teardown => rendered p (Session.step w Unmount)
  end.

Definition run (p : Page) (es : list Event) : Page := fold_left step es p.

End Page.

(* ================================================================== *)
(** ** Further notions used in the statements *)
(* ================================================================== *)

Module MoreNotions.

(** The suspended calls of [handleApiKeySubmit]. *)
Definition isValidation (q : nat * Task) : bool :=
  match snd q with
  | AwaitInitialize _ => true
  | AwaitFileToBase64 _ | AwaitGenerate _ => false
  end.

Definition validating (w : World) : list (nat * Task) :=
  filter isValidation (pending w).

(** The text of line 89 starts like this, whatever the failure message. *)
Definition keyIssuePrefix : string := "Generation Failed: API Key issue. ".

Definition isKeyIssueText (v : option string) : bool :=
  match v with
  | Some text => startsWith text keyIssuePrefix
  | None => false
  end.

(** The message [handleApiKeySubmit] works with in its [catch] clause. *)
Definition initializationErrorMessage (err : Thrown) : string :=
  match err with
  | ErrorObject message => message
  | NonError => "An unknown error occurred."
  end.

(** While the in-flight flag of a mounted component is up, a generation
    call is pending. *)
Definition inv_busy (w : World) : Prop :=
  mounted w = true -> isLoading (state w) = true -> inFlight w <> [].

(** The main page never holds the text of line 89 in its error cell. *)
Definition inv_keyIssue (w : World) : Prop :=
  isKeySet (state w) = true -> isKeyIssueText (error (state w)) = false.

(** Through the page, the validating flag is up exactly while one
    initialize call is pending. *)
Definition inv_validation (w : World) : Prop :=
  List.length (validating w) <= 1
  /\ (mounted w = true ->
      (isKeyValidating (state w) = true <-> validating w <> [])).

(** Through the page, no credential error is carried into a validation or
    into the session. *)
Definition inv_formError (w : World) : Prop :=
  isKeySet (state w) = true \/ isKeyValidating (state w) = true ->
  apiKeyError (state w) = None.

(** The four facts with "client bound?" answered by the service
    ([isClientInitialized()]) instead of the controller's [isKeySet]. *)
Definition holderFacts (w : World) : Facts :=
  {| bound := isClientInitialized (holder w);
     imageSelected := truthy (uploadedImagePreview (state w));
     generating := isLoading (state w);
     resultPresent :=
       truthy (generatedImageUrl (state w))
       && truthy (generatedPrompt (state w)) |}.



End MoreNotions.
Import MoreNotions.

(* ================================================================== *)
(** ** Proof automation *)
(* ================================================================== *)

(** The world-level part of a handler, on a world whose fields are known. *)
Ltac eval_world :=
  cbv beta iota zeta delta
    [unmount handleApiKeySubmit handleApiKeySubmit_resume handleImageUpload
     handleGenerate handleGenerate_encoded handleGenerate_resume
     handleGenerate_catch handleReselectImage handleChangeApiKey
     mountEffect finished awaitNext await createObjectURL revokeObjectURL
     setApiKey setIsKeySet setApiKeyError setIsKeyValidating
     setUploadedImageFile setUploadedImagePreview setGeneratedImageUrl
     setGeneratedPrompt setIsLoading setError setState
     with_state with_holder with_fileInput with_pending
     mounted state holder created revoked fileInput pending nextTask calls].

(** The cell-level part: projections of updated states. *)
Ltac eval_state :=
  cbn [with_apiKey with_isKeySet with_apiKeyError with_isKeyValidating
       with_uploadedImageFile with_uploadedImagePreview with_generatedImageUrl
       with_generatedPrompt with_isLoading with_error
       apiKey isKeySet apiKeyError isKeyValidating uploadedImageFile
       uploadedImagePreview generatedImageUrl generatedPrompt isLoading error].

Ltac split_match :=
  repeat (eval_state;
          match goal with
          | |- context [match ?x with _ => _ end] =>
              lazymatch x with
              | context [match _ with _ => _ end] => fail
              | _ => destruct x eqn:?
              end
          end; cbv beta iota);
  eval_state.

(** Equations recorded by a case split, put back to use. *)
Ltac reuse_eqns :=
  repeat match goal with
         | E : ?x = _ |- context [?x] => rewrite E
         end.

(** Case analysis on one step: which event, whether the component is
    mounted, which suspended handler the settled promise belongs to. *)
Ltac step_cases w e :=
  destruct w as [m s h c r fi p n cl]; destruct e; unfold step;
  cbn [mounted pending];
  try (destruct m);
  try match goal with
      | |- context [lookupTask ?a ?b] =>
          let t := fresh "t" in
          let Ht := fresh "Ht" in
          destruct (lookupTask a b) as [t|] eqn:Ht; [destruct t|]
      end.

(** A mounted world, taken apart. *)
Ltac known_world w Hm :=
  destruct w as [m s h c r fi p n cl]; cbn [mounted state pending] in *;
  subst m; unfold step; cbn [mounted state pending].

(* ================================================================== *)
(** ** Elementary facts about the model *)
(* ================================================================== *)

(** The string functions on sample inputs. *)
Example trim_sample : trim "  a b  " = "a b"%string.
Proof. reflexivity. Qed.

Example trim_white_space_sample :
  trim (String (ascii_of_nat 9) (String (ascii_of_nat 160) " ")) = ""%string.
Proof. reflexivity. Qed.

Example includes_sample :
  includes "Error: API Key not valid." "API Key" = true
  /\ includes "network down" "API Key" = false
  /\ isApiKeyIssue "Gemini client is not initialized." = true.
Proof. repeat split. Qed.

(** The scenarios of the lifecycle, run on the model. *)
Example scenario_good_key :
  phase (mount None) = NeedsCredential
  /\ phase ready = Ready
  /\ error (state ready) = None
  /\ apiKeyError (state ready) = None
  /\ holder ready = Some "good-key"%string.
Proof. vm_compute. repeat split. Qed.

Example scenario_generate :
  let selected := step ready (UploadImage imgA) in
  let generated := step generatingA (GenerateSettled 1 (Fulfilled r1)) in
  phase selected = ImageSelected
  /\ phase generatingA = Generating
  /\ phase generated = Generated
  /\ generatedImageUrl (state generated) = Some "u1"%string
  /\ generatedPrompt (state generated) = Some "p1"%string.
Proof. vm_compute. repeat split. Qed.

Example scenario_rejected_key :
  let w := run (mount None)
             [SubmitApiKey "bad-key";
              InitializeSettled 0 (Rejected (ErrorObject "API key not valid"))] in
  phase w = NeedsCredential
  /\ holder w = None
  /\ apiKeyError (state w)
     = Some "Invalid API Key or setup failed: API key not valid. Please check your key and try again."%string.
Proof. vm_compute. repeat split. Qed.

Lemma sameValue_refl (a : option string) : sameValue a a = true.
Proof. destruct a as [x|]; simpl; [apply String.eqb_refl | reflexivity]. Qed.

Lemma sameValue_eq (a b : option string) : sameValue a b = true <-> a = b.
Proof.
  destruct a as [x|], b as [y|]; simpl; split; intro H;
    try discriminate; try reflexivity.
  - apply String.eqb_eq in H. now subst.
  - injection H as ->. apply String.eqb_refl.
Qed.

(** White-space-only strings trim to the empty string. *)
Lemma trimStart_blank (s : string) : blank s = true -> trimStart s = "".
Proof.
  unfold blank. induction s as [|c s IH]; simpl; [reflexivity|].
  intro H. apply andb_true_iff in H as [Hc Hs]. rewrite Hc. auto.
Qed.

Lemma trim_blank (s : string) : blank s = true -> trim s = "".
Proof. intro H. unfold trim. now rewrite trimStart_blank. Qed.

Lemma prefix_empty (s : string) : String.prefix "" s = true.
Proof. now destruct s. Qed.

Lemma includes_prefix (s searchString : string) :
  String.prefix searchString s = true -> includes s searchString = true.
Proof. intros H. destruct s; simpl in *; now rewrite H. Qed.

Lemma prefix_cons (a b : ascii) (s1 s2 : string) :
  String.prefix (String a s1) (String b s2)
  = if ascii_dec a b then String.prefix s1 s2 else false.
Proof. reflexivity. Qed.




(** *** What a commit leaves alone *)

Section CommitFrame.

Variable A : Type.
Variable proj : World -> A.
Hypothesis proj_fileInput : forall v w, proj (with_fileInput v w) = proj w.
Hypothesis proj_revoke : forall u w, proj (revokeObjectURL u w) = proj w.

Lemma frame_syncFileInput w : proj (syncFileInput w) = proj w.
Proof.
  unfold syncFileInput.
  destruct (_ && _); [destruct (fileInput w)|]; auto.
Qed.

Lemma frame_previewCleanup p w : proj (previewCleanup p w) = proj w.
Proof.
  unfold previewCleanup. destruct p; [destruct (_ && _)|]; auto.
Qed.

Lemma frame_commit prev w : proj (commit prev w) = proj w.
Proof.
  unfold commit. rewrite frame_syncFileInput.
  destruct (sameValue _ _); [reflexivity | apply frame_previewCleanup].
Qed.

End CommitFrame.

Lemma state_commit prev w : state (commit prev w) = state w.
Proof. now apply frame_commit. Qed.
Lemma mounted_commit prev w : mounted (commit prev w) = mounted w.
Proof. now apply frame_commit. Qed.
Lemma holder_commit prev w : holder (commit prev w) = holder w.
Proof. now apply frame_commit. Qed.
Lemma created_commit prev w : created (commit prev w) = created w.
Proof. now apply frame_commit. Qed.
Lemma pending_commit prev w : pending (commit prev w) = pending w.
Proof. now apply frame_commit. Qed.
Lemma nextTask_commit prev w : nextTask (commit prev w) = nextTask w.
Proof. now apply frame_commit. Qed.
Lemma calls_commit prev w : calls (commit prev w) = calls w.
Proof. now apply frame_commit. Qed.

Lemma revoked_syncFileInput w : revoked (syncFileInput w) = revoked w.
Proof. unfold syncFileInput. now destruct (_ && _), (fileInput w). Qed.

Lemma state_unmount w : state (unmount w) = state w.
Proof. unfold unmount; cbn. now apply frame_previewCleanup. Qed.
Lemma holder_unmount w : holder (unmount w) = holder w.
Proof. unfold unmount; cbn. now apply frame_previewCleanup. Qed.
Lemma created_unmount w : created (unmount w) = created w.
Proof. unfold unmount; cbn. now apply frame_previewCleanup. Qed.
Lemma pending_unmount w : pending (unmount w) = pending w.
Proof. unfold unmount; cbn. now apply frame_previewCleanup. Qed.
Lemma nextTask_unmount w : nextTask (unmount w) = nextTask w.
Proof. unfold unmount; cbn. now apply frame_previewCleanup. Qed.
Lemma calls_unmount w : calls (unmount w) = calls w.
Proof. unfold unmount; cbn. now apply frame_previewCleanup. Qed.
Lemma mounted_unmount w : mounted (unmount w) = false.
Proof. reflexivity. Qed.

Create Rewrite HintDb frame.
#[global] Hint Rewrite state_commit mounted_commit holder_commit created_commit
  pending_commit nextTask_commit calls_commit
  state_unmount mounted_unmount holder_unmount created_unmount
  pending_unmount nextTask_unmount calls_unmount : frame.

(* ================================================================== *)
(** ** Invariants of the reachable states *)
(* ================================================================== *)

Lemma inv_bound_step w e : inv_bound w -> inv_bound (step w e).
Proof.
  unfold inv_bound. step_cases w e; autorewrite with frame;
    eval_world; split_match; eval_state; intros; auto; try discriminate;
    try destruct outcome; auto.
Qed.

Lemma inv_loading_step w e : inv_loading w -> inv_loading (step w e).
Proof.
  unfold inv_loading. step_cases w e; autorewrite with frame;
    eval_world; split_match; eval_state; intros; auto; try discriminate.
Qed.

Lemma inv_image_step w e : inv_image w -> inv_image (step w e).
Proof.
  unfold inv_image. step_cases w e; autorewrite with frame;
    eval_world; split_match; intros; reuse_eqns; try assumption;
    try (split; [tauto | intros; discriminate]).
  split; [split; discriminate|].
  intros url [= <-]. exists c. split; [lia | reflexivity].
Qed.

Lemma Forall_removeTask (P : nat * Task -> Prop) id l :
  Forall P l -> Forall P (removeTask id l).
Proof.
  induction 1 as [|[i t] l Hq Hl IH]; simpl; [constructor|].
  destruct (i =? id)%nat; [assumption | now constructor].
Qed.

Lemma Forall_replaceTask (P : nat * Task -> Prop) id t' l :
  (forall i t, P (i, t) -> P (i, t')) ->
  Forall P l -> Forall P (replaceTask id t' l).
Proof.
  intros HP. induction 1 as [|[i t] l Hq Hl IH]; simpl; [constructor|].
  destruct (i =? id)%nat; constructor; eauto.
Qed.

Lemma inv_ids_step w e : inv_ids w -> inv_ids (step w e).
Proof.
  unfold inv_ids. step_cases w e; autorewrite with frame;
    eval_world; split_match; intros H; try assumption.
  all: try (apply Forall_removeTask; assumption).
  all: try (apply Forall_replaceTask; [intros ? ? Hlt; exact Hlt | assumption]).
  all: apply Forall_app; split;
    [ eapply Forall_impl; [|exact H]; simpl; intros; lia
    | repeat constructor; simpl; lia ].
Qed.

Lemma fileInput_previewCleanup p w :
  fileInput (previewCleanup p w) = fileInput w.
Proof. unfold previewCleanup. destruct p; [destruct (_ && _)|]; reflexivity. Qed.

Lemma inv_dom_commit prev w :
  fileInput w = None \/ fileInput w = Some "" -> inv_dom (commit prev w).
Proof.
  intros H. unfold inv_dom, commit.
  set (w1 := if sameValue _ _ then w else _).
  assert (H1 : fileInput w1 = None \/ fileInput w1 = Some "")
    by (subst w1; destruct (sameValue _ _);
        rewrite ?fileInput_previewCleanup; assumption).
  clearbody w1. unfold syncFileInput, view.
  destruct (mounted w1 && imageUpload (render (state w1))) eqn:E.
  - destruct (fileInput w1) eqn:F; cbn [mounted state fileInput with_fileInput];
      rewrite ?E; [|reflexivity].
    rewrite F. destruct H1 as [H1|H1]; [discriminate | assumption].
  - cbn [mounted state fileInput with_fileInput]. now rewrite E.
Qed.

Lemma inv_dom_values w :
  inv_dom w -> fileInput w = None \/ fileInput w = Some "".
Proof. unfold inv_dom. intros ->. destruct (_ && _); auto. Qed.

Lemma inv_dom_step w e : inv_dom w -> inv_dom (step w e).
Proof.
  intros H. pose proof (inv_dom_values H) as Hv. revert H Hv.
  step_cases w e; intros H Hv; try assumption; cbn [fileInput] in Hv.
  all: try (apply inv_dom_commit; eval_world; split_match; auto; fail).
  unfold inv_dom. autorewrite with frame. reflexivity.
Qed.

(** *** Object URLs: created once, released once *)

Lemma objectURL_inj a b : objectURL a = objectURL b -> a = b.
Proof.
  unfold objectURL. simpl. intros [= H].
  apply DecimalNat.Unsigned.to_uint_inj.
  apply (f_equal NilEmpty.uint_of_string) in H.
  rewrite !NilEmpty.usu in H. now injection H.
Qed.

Lemma released_objectURL i : released (Some (objectURL i)) = [objectURL i].
Proof.
  unfold released, objectURL, startsWith. simpl.
  now destruct (NilEmpty.string_of_uint (Nat.to_uint i)).
Qed.

Lemma revoked_previewCleanup p w :
  revoked (previewCleanup p w) = revoked w ++ released p.
Proof.
  unfold previewCleanup, released.
  destruct p; [destruct (_ && _)|]; cbn; now rewrite ?app_nil_r.
Qed.

Lemma revoked_commit prev w :
  revoked (commit prev w)
  = revoked w
    ++ (if sameValue (uploadedImagePreview (state prev))
                     (uploadedImagePreview (state w))
        then [] else released (uploadedImagePreview (state prev))).
Proof.
  unfold commit. rewrite revoked_syncFileInput.
  destruct (sameValue _ _);
    [now rewrite app_nil_r | apply revoked_previewCleanup].
Qed.

Lemma revoked_unmount w :
  revoked (unmount w)
  = revoked w ++ released (uploadedImagePreview (state w)).
Proof. unfold unmount; cbn. apply revoked_previewCleanup. Qed.

Lemma held_commit prev w : held (commit prev w) = held w.
Proof. unfold held. now rewrite mounted_commit, state_commit. Qed.

Lemma allocated_S c :
  map objectURL (seq 0 (S c)) = map objectURL (seq 0 c) ++ [objectURL c].
Proof. now rewrite seq_S, map_app. Qed.

Lemma NoDup_allocated c : NoDup (map objectURL (seq 0 c)).
Proof.
  apply Injective_map_NoDup; [|apply seq_NoDup].
  intros a b. apply objectURL_inj.
Qed.

Lemma sameValue_objectURL i c :
  i < c -> sameValue (Some (objectURL i)) (Some (objectURL c)) = false.
Proof.
  intros Hi. apply not_true_is_false. intros H.
  apply sameValue_eq in H.
  assert (E : objectURL i = objectURL c) by congruence.
  apply objectURL_inj in E. lia.
Qed.

Lemma inv_handles_commit prev w :
  inv_image prev -> inv_handles prev ->
  mounted w = mounted prev -> revoked w = revoked prev ->
  preview_kept prev w \/ preview_cleared prev w \/ preview_replaced prev w ->
  inv_handles (commit prev w).
Proof.
  unfold inv_handles, inv_image, allocated.
  intros [_ Himg] H Hm Hr Hcases.
  rewrite revoked_commit, held_commit, created_commit, Hr.
  unfold held in *. rewrite Hm.
  destruct Hcases as [[Hp Hc] | [(Hmp & Hp & Hc) | (Hmp & Hp & Hc)]];
    rewrite Hp, Hc.
  - now rewrite sameValue_refl, app_nil_r.
  - rewrite Hmp in *.
    destruct (uploadedImagePreview (state prev)) as [url|]; cbn [sameValue].
    + destruct (Himg url eq_refl) as (i & Hi & ->).
      now rewrite released_objectURL, app_nil_r.
    + now rewrite !app_nil_r in *.
  - rewrite Hmp in *. rewrite allocated_S.
    destruct (uploadedImagePreview (state prev)) as [url|].
    + destruct (Himg url eq_refl) as (i & Hi & ->).
      rewrite sameValue_objectURL, released_objectURL by assumption.
      now rewrite H.
    + cbn [sameValue released]. now rewrite H.
Qed.

Lemma inv_handles_unmount w :
  inv_image w -> inv_handles w -> mounted w = true ->
  inv_handles (unmount w).
Proof.
  unfold inv_handles, inv_image, allocated, held.
  intros [_ Himg] H Hm.
  rewrite revoked_unmount, created_unmount, mounted_unmount, app_nil_r.
  rewrite Hm in H.
  destruct (uploadedImagePreview (state w)) as [url|].
  - destruct (Himg url eq_refl) as (i & Hi & ->).
    now rewrite released_objectURL.
  - assumption.
Qed.

Lemma inv_handles_step w e :
  inv_image w -> inv_handles w -> inv_handles (step w e).
Proof.
  intros Himg H. revert Himg H.
  step_cases w e; intros Himg H; try assumption;
    try (apply inv_handles_unmount; [assumption .. | reflexivity]).
  all: apply inv_handles_commit; [assumption | assumption | ..];
    unfold preview_kept, preview_cleared, preview_replaced;
    eval_world; split_match; auto 6.
Qed.

Lemma mount_eq h :
  mount h
  = mkWorld true (with_isKeySet (isClientInitialized h) initialState) h
      0 [] (if isClientInitialized h then Some "" else None) [] 0 [].
Proof. now destruct h. Qed.

Lemma Inv_mount h : Inv (mount h).
Proof.
  rewrite mount_eq. split.
  - unfold inv_bound. now cbn.
  - unfold inv_loading. cbn. discriminate.
  - unfold inv_image. cbn. split; [tauto | discriminate].
  - constructor.
  - unfold inv_dom. now destruct h.
  - reflexivity.
Qed.

Lemma Inv_step w e : Inv w -> Inv (step w e).
Proof.
  intros [Hb Hl Hi Hn Hd Hh]. split.
  - now apply inv_bound_step.
  - now apply inv_loading_step.
  - now apply inv_image_step.
  - now apply inv_ids_step.
  - now apply inv_dom_step.
  - now apply inv_handles_step.
Qed.

Lemma Inv_run w es : Inv w -> Inv (run w es).
Proof.
  revert w. induction es as [|e es IH]; intros w H; simpl; [assumption|].
  apply IH. now apply Inv_step.
Qed.

Lemma Inv_reachable w : reachable w -> Inv w.
Proof. induction 1; [apply Inv_mount | now apply Inv_step]. Qed.

Lemma reachable_run h es : reachable (run (mount h) es).
Proof.
  assert (G : forall w, reachable w -> reachable (run w es)).
  { induction es as [|e es IH]; intros w H; simpl; [assumption|].
    apply IH. now constructor. }
  apply G. constructor.
Qed.

(** Whatever the page offers is a handler call: the UI-driven states are
    among the reachable ones. *)
Lemma uiReachable_reachable w : uiReachable w -> reachable w.
Proof.
  induction 1 as [h | w e _ IH]; [constructor|].
  unfold uiStep. destruct (offered w e); [now constructor | assumption].
Qed.

Lemma uiReachable_uiRun h es : uiReachable (uiRun (mount h) es).
Proof.
  assert (G : forall w, uiReachable w -> uiReachable (uiRun w es)).
  { induction es as [|e es IH]; intros w H; simpl; [assumption|].
    apply IH. now constructor. }
  apply G. constructor.
Qed.

(** A reachable preview is a non-empty [blob:] URL. *)
Lemma Inv_preview_truthy w :
  Inv w -> uploadedImageFile (state w) <> None ->
  truthy (uploadedImagePreview (state w)) = true.
Proof.
  intros [_ _ [Hfp Hurl] _ _ _] Hf.
  destruct (uploadedImagePreview (state w)) as [url|] eqn:E.
  - destruct (Hurl url eq_refl) as (i & _ & ->). reflexivity.
  - exfalso. apply Hf. now apply Hfp.
Qed.

(* ================================================================== *)
(** ** Generation calls in flight *)
(* ================================================================== *)

Lemma inFlight_commit prev w : inFlight (commit prev w) = inFlight w.
Proof. unfold inFlight. now rewrite pending_commit. Qed.

Lemma filter_removeTask_other id t l :
  lookupTask id l = Some t -> isGeneration (id, t) = false ->
  filter isGeneration (removeTask id l) = filter isGeneration l.
Proof.
  induction l as [|[i t0] l IH]; simpl; [discriminate|].
  destruct (Nat.eqb_spec i id) as [->|Hne].
  - intros [= ->] Hg. unfold isGeneration in *. simpl in *. now rewrite Hg.
  - intros Hl Hg. simpl. now rewrite IH.
Qed.

Lemma filter_removeTask_generation id t l :
  lookupTask id l = Some t -> isGeneration (id, t) = true ->
  S (List.length (filter isGeneration (removeTask id l)))
  = List.length (filter isGeneration l).
Proof.
  induction l as [|[i t0] l IH]; simpl; [discriminate|].
  destruct (Nat.eqb_spec i id) as [->|Hne].
  - intros [= ->] Hg. unfold isGeneration in *. simpl in *. now rewrite Hg.
  - intros Hl Hg. simpl. destruct (isGeneration (i, t0)); simpl; now rewrite IH.
Qed.

Lemma filter_replaceTask_generation id t t' l :
  lookupTask id l = Some t -> isGeneration (id, t) = true ->
  isGeneration (id, t') = true ->
  List.length (filter isGeneration (replaceTask id t' l))
  = List.length (filter isGeneration l).
Proof.
  induction l as [|[i t0] l IH]; simpl; [discriminate|].
  destruct (Nat.eqb_spec i id) as [->|Hne].
  - intros [= ->] Hg Hg'. unfold isGeneration in *. simpl in *.
    now rewrite Hg, Hg'.
  - intros Hl Hg Hg'. simpl.
    destruct (isGeneration (i, t0)); simpl; now rewrite IH.
Qed.

Lemma filter_await_initialize l n k :
  filter isGeneration (l ++ [(n, AwaitInitialize k)]) = filter isGeneration l.
Proof. rewrite filter_app. simpl. apply app_nil_r. Qed.

Lemma inv_single_mount h : inv_single (mount h).
Proof. destruct h; cbv; split; auto. Qed.

Lemma length_le_1_nil (A : Type) (l : list A) : S (List.length l) <= 1 -> l = [].
Proof. destruct l; simpl; [reflexivity | lia]. Qed.

Lemma length_0_nil (A : Type) (l : list A) : List.length l = 0 -> l = [].
Proof. now destruct l. Qed.

Lemma inFlight_unmount w : inFlight (unmount w) = inFlight w.
Proof. unfold inFlight. now rewrite pending_unmount. Qed.

(** Both buttons under the preview are live only while nothing loads. *)
Lemma buttons_offered_idle (m : bool) (s : State) :
  m && preview (render s) && negb (buttonsDisabled (render s)) = true ->
  isLoading s = false.
Proof.
  unfold render.
  destruct m, (isKeySet s), (isLoading s), (truthy (uploadedImagePreview s));
    simpl; congruence.
Qed.

Lemma inv_single_uiStep w e : inv_single w -> inv_single (uiStep w e).
Proof.
  unfold uiStep. destruct (offered w e) eqn:Hoff; [|trivial].
  unfold inv_single. revert Hoff.
  step_cases w e; unfold offered, view;
    cbn [mounted state]; intros Hoff [Hlen Hidle];
    rewrite ?inFlight_commit, ?mounted_commit, ?state_commit,
      ?inFlight_unmount, ?mounted_unmount;
    try (split; [assumption | auto]; fail); try discriminate.
  all: try apply buttons_offered_idle in Hoff.
  all: unfold inFlight in *; cbn [pending mounted state] in Hlen, Hidle;
    eval_world; split_match; rewrite ?filter_await_initialize;
    try (split; [assumption | auto]; fail).
  all: try (rewrite (filter_removeTask_other _ _ Ht eq_refl); split; auto; fail).
  all: try (pose proof (filter_removeTask_generation _ _ Ht eq_refl) as Hrm;
            assert (Hnil : filter isGeneration (removeTask id p) = [])
              by (apply length_le_1_nil; rewrite Hrm; assumption);
            rewrite Hnil; split; [simpl; lia | reflexivity]; fail).
  all: try (split; [assumption|]; intros _ Hl; apply Hidle; [reflexivity|];
            congruence).
  - (* a generation starts: nothing was in flight *)
    rewrite filter_app, (Hidle eq_refl Hoff). simpl.
    split; [lia | discriminate].
  - (* the encoded image goes out: the same call stays in flight *)
    split.
    + erewrite filter_replaceTask_generation; eauto.
    + intros _ Hl. apply length_0_nil.
      erewrite filter_replaceTask_generation; eauto.
      now rewrite (Hidle eq_refl Hl).
  - split; [|discriminate].
    erewrite filter_replaceTask_generation; eauto.
  - split; [assumption | discriminate].
Qed.

Lemma inv_single_uiReachable w : uiReachable w -> inv_single w.
Proof.
  induction 1; [apply inv_single_mount | now apply inv_single_uiStep].
Qed.

(* ================================================================== *)
(** ** What single steps do to a mounted component *)
(* ================================================================== *)

Lemma step_generate_rejected w id f err :
  mounted w = true ->
  lookupTask id (pending w) = Some (AwaitGenerate f) ->
  let w' := step w (GenerateSettled id (Rejected err)) in
  mounted w' = true
  /\ state w' = afterGenerationFailure err (state w)
  /\ pending w' = removeTask id (pending w)
  /\ nextTask w' = nextTask w
  /\ holder w' = holder w
  /\ calls w' = calls w
  /\ revoked w' = revoked w.
Proof.
  intros Hm Ht. known_world w Hm. rewrite Ht. cbv zeta.
  rewrite revoked_commit. autorewrite with frame.
  unfold afterGenerationFailure. eval_world.
  destruct (isApiKeyIssue _); eval_state;
    rewrite sameValue_refl, app_nil_r; auto 8.
Qed.

Lemma step_encode_rejected w id f err :
  mounted w = true ->
  lookupTask id (pending w) = Some (AwaitFileToBase64 f) ->
  let w' := step w (FileToBase64Settled id (Rejected err)) in
  mounted w' = true
  /\ state w' = afterGenerationFailure err (state w)
  /\ pending w' = removeTask id (pending w)
  /\ nextTask w' = nextTask w
  /\ holder w' = holder w
  /\ calls w' = calls w
  /\ revoked w' = revoked w.
Proof.
  intros Hm Ht. known_world w Hm. rewrite Ht. cbv zeta.
  rewrite revoked_commit. autorewrite with frame.
  unfold afterGenerationFailure. eval_world.
  destruct (isApiKeyIssue _); eval_state;
    rewrite sameValue_refl, app_nil_r; auto 8.
Qed.

Lemma step_generate_fulfilled w id f result :
  mounted w = true ->
  lookupTask id (pending w) = Some (AwaitGenerate f) ->
  let w' := step w (GenerateSettled id (Fulfilled result)) in
  mounted w' = true
  /\ state w' = (state w |> with_generatedImageUrl (Some (imageUrl result))
                         |> with_generatedPrompt (Some (finalPrompt result))
                         |> with_isLoading false)
  /\ pending w' = removeTask id (pending w)
  /\ holder w' = holder w
  /\ calls w' = calls w
  /\ revoked w' = revoked w.
Proof.
  intros Hm Ht. known_world w Hm. rewrite Ht. cbv zeta.
  rewrite revoked_commit. autorewrite with frame.
  eval_world. eval_state. rewrite sameValue_refl, app_nil_r. auto 8.
Qed.

Lemma step_submit_nonblank w submittedKey :
  mounted w = true ->
  trim submittedKey <> ""%string ->
  let w' := step w (SubmitApiKey submittedKey) in
  mounted w' = true
  /\ state w' = (state w |> with_isKeyValidating true |> with_apiKeyError None)
  /\ pending w' = pending w ++ [(nextTask w, AwaitInitialize submittedKey)]
  /\ nextTask w' = S (nextTask w)
  /\ holder w' = holder w
  /\ calls w' = calls w ++ [CallInitialize submittedKey]
  /\ revoked w' = revoked w.
Proof.
  intros Hm Hk. known_world w Hm. cbv zeta.
  rewrite revoked_commit. autorewrite with frame.
  unfold handleApiKeySubmit. cbn [truthy].
  destruct (String.eqb_spec (trim submittedKey) ""%string) as [E|_];
    [contradiction|]. cbn [negb].
  eval_world. eval_state. rewrite sameValue_refl, app_nil_r. auto 8.
Qed.

Lemma step_initialize_fulfilled w id submittedKey :
  mounted w = true ->
  lookupTask id (pending w) = Some (AwaitInitialize submittedKey) ->
  let w' := step w (InitializeSettled id (Fulfilled tt)) in
  mounted w' = true
  /\ state w' = (state w |> with_apiKey submittedKey
                         |> with_isKeySet true
                         |> with_error None
                         |> with_isKeyValidating false)
  /\ pending w' = removeTask id (pending w)
  /\ holder w' = Some submittedKey
  /\ calls w' = calls w
  /\ revoked w' = revoked w.
Proof.
  intros Hm Ht. known_world w Hm. rewrite Ht. cbv zeta.
  rewrite revoked_commit. autorewrite with frame.
  eval_world. eval_state. rewrite sameValue_refl, app_nil_r. auto 8.
Qed.

Lemma step_upload w file :
  mounted w = true ->
  let w' := step w (UploadImage file) in
  mounted w' = true
  /\ state w' = (state w |> with_uploadedImageFile (Some file)
                         |> with_error None
                         |> with_generatedImageUrl None
                         |> with_generatedPrompt None
                         |> with_uploadedImagePreview
                              (Some (objectURL (created w))))
  /\ pending w' = pending w
  /\ nextTask w' = nextTask w
  /\ calls w' = calls w.
Proof.
  intros Hm. known_world w Hm. cbv zeta. autorewrite with frame.
  eval_world. auto 6.
Qed.

Lemma step_generate_started w file :
  mounted w = true ->
  uploadedImageFile (state w) = Some file ->
  let w' := step w ClickGenerate in
  mounted w' = true
  /\ state w' = (state w |> with_isLoading true
                         |> with_error None
                         |> with_generatedImageUrl None
                         |> with_generatedPrompt None)
  /\ pending w' = pending w ++ [(nextTask w, AwaitFileToBase64 file)]
  /\ nextTask w' = S (nextTask w)
  /\ calls w' = calls w ++ [CallFileToBase64 file].
Proof.
  intros Hm Hf. known_world w Hm. cbv zeta. autorewrite with frame.
  unfold handleGenerate. cbn [state]. rewrite Hf. eval_world. auto 6.
Qed.

Lemma step_encode_fulfilled w id file base64Image :
  mounted w = true ->
  lookupTask id (pending w) = Some (AwaitFileToBase64 file) ->
  let w' := step w (FileToBase64Settled id (Fulfilled base64Image)) in
  mounted w' = true
  /\ state w' = state w
  /\ pending w' = replaceTask id (AwaitGenerate file) (pending w)
  /\ nextTask w' = nextTask w
  /\ calls w' = calls w ++ [CallGenerate base64Image (type file)].
Proof.
  intros Hm Ht. known_world w Hm. rewrite Ht. cbv zeta.
  autorewrite with frame. eval_world. auto 6.
Qed.

(** Tasks queued before call number [n] was handed out are not touched by
    operations on later call numbers. *)
Lemma lookupTask_older n older id later :
  Forall (fun q => fst q < n) older -> n <= id ->
  lookupTask id (older ++ later) = lookupTask id later.
Proof.
  intros Hlt Hid. induction Hlt as [|[i t] l Hq Hl IH]; simpl; [reflexivity|].
  simpl in Hq. destruct (Nat.eqb_spec i id); [lia | assumption].
Qed.

Lemma replaceTask_older n older id t' later :
  Forall (fun q => fst q < n) older -> n <= id ->
  replaceTask id t' (older ++ later) = older ++ replaceTask id t' later.
Proof.
  intros Hlt Hid. induction Hlt as [|[i t] l Hq Hl IH]; simpl; [reflexivity|].
  simpl in Hq. destruct (Nat.eqb_spec i id); [lia | now rewrite IH].
Qed.

Lemma removeTask_older n older id later :
  Forall (fun q => fst q < n) older -> n <= id ->
  removeTask id (older ++ later) = older ++ removeTask id later.
Proof.
  intros Hlt Hid. induction Hlt as [|[i t] l Hq Hl IH]; simpl; [reflexivity|].
  simpl in Hq. destruct (Nat.eqb_spec i id); [lia | now rewrite IH].
Qed.

Lemma eqb_succ_r n : (n =? S n)%nat = false.
Proof. apply Nat.eqb_neq. lia. Qed.

Lemma eqb_succ_l n : (S n =? n)%nat = false.
Proof. apply Nat.eqb_neq. lia. Qed.

(** A call number not yet handed out finds the task that was just queued. *)
Lemma lookupTask_fresh n t l :
  Forall (fun q => fst q < n) l -> lookupTask n (l ++ [(n, t)]) = Some t.
Proof.
  induction 1 as [|[i t0] l Hq Hl IH]; simpl.
  - now rewrite Nat.eqb_refl.
  - simpl in Hq. destruct (Nat.eqb_spec i n); [lia | assumption].
Qed.

(* ================================================================== *)
(** ** Properties of the session lifecycle *)
(* ================================================================== *)

Lemma phase_NeedsCredential w :
  isKeySet (state w) = false -> phase w = NeedsCredential.
Proof. unfold phase, phaseOf, facts. cbn. now intros ->. Qed.

(** C7: a credential that is empty or made of white space only is rejected
    by [handleApiKeySubmit] itself: the phase is NeedsCredential, the
    credential error is exactly "API Key cannot be empty.", no other cell
    changes, and nothing is sent to the service (no call is recorded, no
    promise is pending, the holder is as before). *)
Theorem blank_credential_rejected_locally (w : World) (submittedKey : string) :
  mounted w = true ->
  blank submittedKey = true ->
  let w' := step w (SubmitApiKey submittedKey) in
  phase w' = NeedsCredential
  /\ apiKeyError (state w') = Some "API Key cannot be empty."%string
  /\ state w' = with_isKeySet false
                  (with_apiKeyError (Some "API Key cannot be empty."%string)
                     (state w))
  /\ calls w' = calls w
  /\ pending w' = pending w
  /\ holder w' = holder w.
Proof.
  intros Hm Hblank. destruct w as [m s h c r fi p n cl].
  cbn [mounted] in Hm. subst m. unfold step. cbn [mounted].
  unfold handleApiKeySubmit. rewrite (trim_blank _ Hblank). cbn [truthy negb String.eqb].
  cbv zeta. split; [apply phase_NeedsCredential|]; autorewrite with frame;
    eval_world; auto.
Qed.

Lemma blank_credential_rejected_locally_witness :
  let w' := step (mount None) (SubmitApiKey "   ") in
  phase w' = NeedsCredential
  /\ apiKeyError (state w') = Some "API Key cannot be empty."%string
  /\ state w' = with_isKeySet false
                  (with_apiKeyError (Some "API Key cannot be empty."%string)
                     (state (mount None)))
  /\ calls w' = calls (mount None)
  /\ pending w' = pending (mount None)
  /\ holder w' = holder (mount None).
Proof.
  apply (@blank_credential_rejected_locally (mount None) "   "%string);
    vm_compute; reflexivity.
Defined.

(** C10: [handleGenerate] with no image selected only sets the error to
    "Please upload an image first.": every other cell, the pending calls,
    the calls made to the service, the holder and the object URLs are as
    before. *)
Theorem generate_without_image_only_reports (w : World) :
  mounted w = true ->
  uploadedImageFile (state w) = None ->
  let w' := step w ClickGenerate in
  state w' = with_error (Some "Please upload an image first."%string) (state w)
  /\ error (state w') = Some "Please upload an image first."%string
  /\ isLoading (state w') = isLoading (state w)
  /\ pending w' = pending w
  /\ calls w' = calls w
  /\ holder w' = holder w
  /\ revoked w' = revoked w
  /\ created w' = created w.
Proof.
  intros Hm Hf. destruct w as [m s h c r fi p n cl].
  cbn [mounted state] in *. subst m. unfold step. cbn [mounted].
  rewrite revoked_commit. autorewrite with frame.
  unfold handleGenerate. cbn [state]. rewrite Hf. eval_world. eval_state.
  rewrite sameValue_refl, app_nil_r. auto 10.
Qed.

Lemma generate_without_image_only_reports_witness :
  let w' := step ready ClickGenerate in
  state w' = with_error (Some "Please upload an image first."%string) (state ready)
  /\ error (state w') = Some "Please upload an image first."%string
  /\ isLoading (state w') = isLoading (state ready)
  /\ pending w' = pending ready
  /\ calls w' = calls ready
  /\ holder w' = holder ready
  /\ revoked w' = revoked ready
  /\ created w' = created ready.
Proof.
  apply (@generate_without_image_only_reports ready); vm_compute; reflexivity.
Defined.

(** C2, as the code has it: "Change API Key" leaves the session in phase
    NeedsCredential with the credential string, the selected image, its
    preview, the generation result and both error messages cleared; the
    client slot of the service is not touched, so it reports what it
    reported before. *)
Theorem changeCredential_resets_session (w : World) :
  mounted w = true ->
  let w' := step w ClickChangeApiKey in
  phase w' = NeedsCredential
  /\ isKeySet (state w') = false
  /\ apiKey (state w') = ""%string
  /\ uploadedImageFile (state w') = None
  /\ uploadedImagePreview (state w') = None
  /\ generatedImageUrl (state w') = None
  /\ generatedPrompt (state w') = None
  /\ error (state w') = None
  /\ apiKeyError (state w') = None
  /\ holder w' = holder w
  /\ calls w' = calls w.
Proof.
  intros Hm. destruct w as [m s h c r fi p n cl].
  cbn [mounted] in Hm. subst m. unfold step. cbn [mounted]. cbv zeta.
  split; [apply phase_NeedsCredential|]; autorewrite with frame;
    eval_world; eval_state; auto 12.
Qed.

Lemma changeCredential_resets_session_witness :
  let w' := step generatingA ClickChangeApiKey in
  phase w' = NeedsCredential
  /\ isKeySet (state w') = false
  /\ apiKey (state w') = ""%string
  /\ uploadedImageFile (state w') = None
  /\ uploadedImagePreview (state w') = None
  /\ generatedImageUrl (state w') = None
  /\ generatedPrompt (state w') = None
  /\ error (state w') = None
  /\ apiKeyError (state w') = None
  /\ holder w' = holder generatingA
  /\ calls w' = calls generatingA.
Proof.
  apply (@changeCredential_resets_session generatingA); vm_compute; reflexivity.
Defined.

(** C2, counterexample: after a credential was accepted, "Change API Key"
    leaves the holder bound. *)
Lemma changeCredential_leaves_holder_bound :
  let w' := step ready ClickChangeApiKey in
  phase w' = NeedsCredential
  /\ isClientInitialized (holder w') = true
  /\ isClientInitialized (holder w') <> false.
Proof. vm_compute. repeat split. discriminate. Qed.

Lemma phase_Generating_inv w :
  phase w = Generating ->
  isKeySet (state w) = true /\ isLoading (state w) = true.
Proof.
  unfold phase, phaseOf, facts. cbn.
  destruct (isKeySet (state w)), (isLoading (state w)); cbn;
    repeat match goal with
           | |- context [if ?b then _ else _] => destruct b
           end; intros; try discriminate; auto.
Qed.

Lemma phase_ImageSelected w :
  isKeySet (state w) = true -> isLoading (state w) = false ->
  generatedImageUrl (state w) = None ->
  truthy (uploadedImagePreview (state w)) = true ->
  phase w = ImageSelected.
Proof.
  unfold phase, phaseOf, facts. cbn. now intros -> -> -> ->.
Qed.






(** C4, as the code has it: when the generation call in flight is rejected
    with a credential failure, the session goes to NeedsCredential because
    [isKeySet] is cleared; the holder is left as it was and still reports a
    client.  File and preview stay in the state and the preview is not
    released; once a credential is then submitted and accepted, the session
    is in ImageSelected with the same file and preview. *)
Theorem credential_rejection_keeps_image
    (h : Holder) (es : list Event) (id : nat) (started file : File)
    (err : Thrown) (submittedKey : string) :
  let w := run (mount h) es in
  mounted w = true ->
  phase w = Generating ->
  uploadedImageFile (state w) = Some file ->
  lookupTask id (pending w) = Some (AwaitGenerate started) ->
  isApiKeyIssue (generationErrorMessage err) = true ->
  trim submittedKey <> ""%string ->
  let w1 := step w (GenerateSettled id (Rejected err)) in
  let w2 := run w1 [SubmitApiKey submittedKey;
                    InitializeSettled (nextTask w1) (Fulfilled tt)] in
  (phase w1 = NeedsCredential
   /\ isKeySet (state w1) = false
   /\ holder w1 = holder w
   /\ isClientInitialized (holder w1) = true
   /\ uploadedImageFile (state w1) = Some file
   /\ uploadedImagePreview (state w1) = uploadedImagePreview (state w)
   /\ truthy (uploadedImagePreview (state w1)) = true
   /\ revoked w1 = revoked w)
  /\ (phase w2 = ImageSelected
      /\ isClientInitialized (holder w2) = true
      /\ uploadedImageFile (state w2) = Some file
      /\ uploadedImagePreview (state w2) = uploadedImagePreview (state w)
      /\ revoked w2 = revoked w).
Proof.
  intros w Hm Hph Hfile Ht Hissue Hkey w1 w2.
  assert (HI : Inv w) by apply Inv_run, Inv_mount.
  apply phase_Generating_inv in Hph as [Hset Hload].
  pose proof (Inv_bound HI Hset) as Hbound.
  destruct (Inv_loading HI Hload) as [Hurl _].
  assert (Htruthy : truthy (uploadedImagePreview (state w)) = true)
    by (apply Inv_preview_truthy; [assumption | congruence]).
  destruct (@step_generate_rejected w id started err Hm Ht)
    as (Hm1 & Hs1 & Hp1 & Hn1 & Hh1 & _ & Hr1).
  fold w1 in Hm1, Hs1, Hp1, Hn1, Hh1, Hr1.
  unfold afterGenerationFailure in Hs1. rewrite Hissue in Hs1.
  assert (HI1 : Inv w1) by (apply Inv_step; assumption).
  split.
  - split; [apply phase_NeedsCredential|];
      rewrite ?Hh1, Hs1; eval_state; auto 8.
  - subst w2. cbn [run fold_left].
    destruct (@step_submit_nonblank w1 submittedKey Hm1 Hkey)
      as (Hm2 & Hs2 & Hp2 & _ & _ & _ & Hr2).
    set (w1' := step w1 (SubmitApiKey submittedKey)) in *.
    assert (Hl : lookupTask (nextTask w1) (pending w1')
                 = Some (AwaitInitialize submittedKey))
      by (rewrite Hp2; apply lookupTask_fresh, (Inv_ids HI1)).
    destruct (@step_initialize_fulfilled w1' (nextTask w1) submittedKey Hm2 Hl)
      as (_ & Hs3 & _ & Hh3 & _ & Hr3).
    split; [apply phase_ImageSelected|];
      rewrite ?Hh3, ?Hr3, ?Hr2, ?Hr1, ?Hs3, ?Hs2, ?Hs1; eval_state; auto 6.
Qed.

Lemma credential_rejection_keeps_image_witness :
  let w := run (mount None) toGeneratingA in
  let w1 := step w (GenerateSettled 1
                      (Rejected (ErrorObject "API Key not valid"))) in
  let w2 := run w1 [SubmitApiKey "new-key";
                    InitializeSettled (nextTask w1) (Fulfilled tt)] in
  (phase w1 = NeedsCredential
   /\ isKeySet (state w1) = false
   /\ holder w1 = holder w
   /\ isClientInitialized (holder w1) = true
   /\ uploadedImageFile (state w1) = Some imgA
   /\ uploadedImagePreview (state w1) = uploadedImagePreview (state w)
   /\ truthy (uploadedImagePreview (state w1)) = true
   /\ revoked w1 = revoked w)
  /\ (phase w2 = ImageSelected
      /\ isClientInitialized (holder w2) = true
      /\ uploadedImageFile (state w2) = Some imgA
      /\ uploadedImagePreview (state w2) = uploadedImagePreview (state w)
      /\ revoked w2 = revoked w).
Proof.
  apply (@credential_rejection_keeps_image None toGeneratingA 1 imgA imgA
           (ErrorObject "API Key not valid") "new-key"%string);
    vm_compute; try reflexivity.
  discriminate.
Defined.

(** C4, counterexample: from phase Generating, a rejection that carries
    the marker "API Key" leaves the session in NeedsCredential while the
    holder still reports a client. *)
Lemma credential_rejection_leaves_holder_bound :
  let w := uiRun (mount None) toGeneratingA in
  let w1 := uiStep w (GenerateSettled 1
                        (Rejected (ErrorObject "API Key not valid"))) in
  phase w = Generating
  /\ isApiKeyIssue "API Key not valid" = true
  /\ phase w1 = NeedsCredential
  /\ uploadedImageFile (state w1) = Some imgA
  /\ isClientInitialized (holder w1) = true
  /\ isClientInitialized (holder w1) <> false.
Proof. vm_compute. repeat split. discriminate. Qed.

(** C1, as the code has it: [handleGenerate] stores the result of a call
    when that call resolves, whichever image is selected by then.  From any
    reachable state of the mounted component, after selectImage(A),
    startGeneration (call 1), selectImage(B), startGeneration (call 2),
    with call 2 resolving to [r2] and call 1 resolving after it to [r1],
    the stored result is [r1], next to image B, with the in-flight flag
    cleared. *)
Theorem last_resolved_generation_is_stored
    (h : Holder) (es : list Event) (A B : File) (b1 b2 : string)
    (r1 r2 : GenerationResult) :
  let w0 := run (mount h) es in
  mounted w0 = true ->
  let call1 := nextTask w0 in
  let call2 := S (nextTask w0) in
  let w := run w0 [UploadImage A; ClickGenerate;
                   UploadImage B; ClickGenerate;
                   FileToBase64Settled call1 (Fulfilled b1);
                   FileToBase64Settled call2 (Fulfilled b2);
                   GenerateSettled call2 (Fulfilled r2);
                   GenerateSettled call1 (Fulfilled r1)] in
  uploadedImageFile (state w) = Some B
  /\ generatedImageUrl (state w) = Some (imageUrl r1)
  /\ generatedPrompt (state w) = Some (finalPrompt r1)
  /\ isLoading (state w) = false
  /\ calls w = calls w0 ++ [CallFileToBase64 A; CallFileToBase64 B;
                            CallGenerate b1 (type A); CallGenerate b2 (type B)].
Proof.
  intros w0 Hm0 call1 call2 w.
  assert (Hids : Forall (fun q => fst q < call1) (pending w0))
    by apply (Inv_ids (Inv_run es (Inv_mount h))).
  subst w. cbn [run fold_left].
  (* selectImage(A), startGeneration: call 1 *)
  destruct (@step_upload w0 A Hm0) as (Hm1 & Hs1 & Hp1 & Hn1 & Hc1).
  set (w1 := step w0 (UploadImage A)) in *. clearbody w1.
  assert (Hf1 : uploadedImageFile (state w1) = Some A) by now rewrite Hs1.
  destruct (@step_generate_started w1 A Hm1 Hf1) as (Hm2 & Hs2 & Hp2 & Hn2 & Hc2).
  set (w2 := step w1 ClickGenerate) in *. clearbody w2.
  (* selectImage(B), startGeneration: call 2 *)
  destruct (@step_upload w2 B Hm2) as (Hm3 & Hs3 & Hp3 & Hn3 & Hc3).
  set (w3 := step w2 (UploadImage B)) in *. clearbody w3.
  assert (Hf3 : uploadedImageFile (state w3) = Some B) by now rewrite Hs3.
  destruct (@step_generate_started w3 B Hm3 Hf3) as (Hm4 & Hs4 & Hp4 & Hn4 & Hc4).
  set (w4 := step w3 ClickGenerate) in *. clearbody w4.
  assert (Hp : pending w4
               = pending w0 ++ [(call1, AwaitFileToBase64 A);
                                (call2, AwaitFileToBase64 B)]).
  { rewrite Hp4, Hp3, Hp2, Hp1, Hn3, Hn2, Hn1, <- app_assoc. reflexivity. }
  (* both images are encoded *)
  assert (Hl5 : lookupTask call1 (pending w4) = Some (AwaitFileToBase64 A)).
  { rewrite Hp, (lookupTask_older _ Hids) by lia. cbn [lookupTask].
    now rewrite Nat.eqb_refl. }
  destruct (@step_encode_fulfilled w4 call1 A b1 Hm4 Hl5)
    as (Hm5 & Hs5 & Hp5 & _ & Hc5).
  set (w5 := step w4 (FileToBase64Settled call1 (Fulfilled b1))) in *. clearbody w5.
  rewrite Hp, (replaceTask_older _ _ Hids) in Hp5 by lia.
  cbn [replaceTask] in Hp5. rewrite Nat.eqb_refl in Hp5.
  assert (Hl6 : lookupTask call2 (pending w5) = Some (AwaitFileToBase64 B)).
  { rewrite Hp5, (lookupTask_older _ Hids) by (unfold call2; lia). cbn [lookupTask].
    unfold call2. now rewrite eqb_succ_r, Nat.eqb_refl. }
  destruct (@step_encode_fulfilled w5 call2 B b2 Hm5 Hl6)
    as (Hm6 & Hs6 & Hp6 & _ & Hc6).
  set (w6 := step w5 (FileToBase64Settled call2 (Fulfilled b2))) in *. clearbody w6.
  rewrite Hp5, (replaceTask_older _ _ Hids) in Hp6 by (unfold call2; lia).
  cbn [replaceTask] in Hp6. unfold call2 in Hp6 at 1.
  rewrite eqb_succ_r, Nat.eqb_refl in Hp6. fold call2 in Hp6.
  (* call 2 resolves, then call 1 *)
  assert (Hl7 : lookupTask call2 (pending w6) = Some (AwaitGenerate B)).
  { rewrite Hp6, (lookupTask_older _ Hids) by (unfold call2; lia). cbn [lookupTask].
    unfold call2. now rewrite eqb_succ_r, Nat.eqb_refl. }
  destruct (@step_generate_fulfilled w6 call2 B r2 Hm6 Hl7)
    as (Hm7 & Hs7 & Hp7 & _ & Hc7 & _).
  set (w7 := step w6 (GenerateSettled call2 (Fulfilled r2))) in *. clearbody w7.
  rewrite Hp6, (removeTask_older _ Hids) in Hp7 by (unfold call2; lia).
  cbn [removeTask] in Hp7. unfold call2 in Hp7 at 1.
  rewrite eqb_succ_r, Nat.eqb_refl in Hp7.
  assert (Hl8 : lookupTask call1 (pending w7) = Some (AwaitGenerate A)).
  { rewrite Hp7, (lookupTask_older _ Hids) by lia. cbn [lookupTask].
    now rewrite Nat.eqb_refl. }
  destruct (@step_generate_fulfilled w7 call1 A r1 Hm7 Hl8)
    as (_ & Hs8 & _ & _ & Hc8 & _).
  rewrite Hs8, Hs7, Hs6, Hs5, Hs4, Hs3, Hc8, Hc7, Hc6, Hc5, Hc4, Hc3, Hc2, Hc1.
  eval_state. rewrite <- !app_assoc. repeat split.
Qed.

Lemma last_resolved_generation_is_stored_witness :
  let w0 := run (mount None) toReady in
  let call1 := nextTask w0 in
  let call2 := S (nextTask w0) in
  let w := run w0 [UploadImage imgA; ClickGenerate;
                   UploadImage imgB; ClickGenerate;
                   FileToBase64Settled call1 (Fulfilled "QQ==");
                   FileToBase64Settled call2 (Fulfilled "Qg==");
                   GenerateSettled call2 (Fulfilled r2);
                   GenerateSettled call1 (Fulfilled r1)] in
  uploadedImageFile (state w) = Some imgB
  /\ generatedImageUrl (state w) = Some (imageUrl r1)
  /\ generatedPrompt (state w) = Some (finalPrompt r1)
  /\ isLoading (state w) = false
  /\ calls w = calls w0 ++ [CallFileToBase64 imgA; CallFileToBase64 imgB;
                            CallGenerate "QQ==" (type imgA);
                            CallGenerate "Qg==" (type imgB)].
Proof.
  apply (@last_resolved_generation_is_stored None toReady imgA imgB
           "QQ=="%string "Qg=="%string r1 r2).
  vm_compute. reflexivity.
Defined.

(** C1, counterexample: call 1 (for image A) resolves after call 2 (for
    image B); the stored result is the one of call 1, not of call 2. *)
Lemma stale_generation_overwrites_newer :
  let beforeStale :=
    run ready [UploadImage imgA; ClickGenerate;
               UploadImage imgB; ClickGenerate;
               FileToBase64Settled 1 (Fulfilled "QQ==");
               FileToBase64Settled 2 (Fulfilled "Qg==");
               GenerateSettled 2 (Fulfilled r2)] in
  let w := step beforeStale (GenerateSettled 1 (Fulfilled r1)) in
  generatedImageUrl (state beforeStale) = Some (imageUrl r2)
  /\ uploadedImageFile (state w) = Some imgB
  /\ generatedImageUrl (state w) = Some (imageUrl r1)
  /\ generatedPrompt (state w) = Some (finalPrompt r1)
  /\ generatedImageUrl (state w) <> Some (imageUrl r2).
Proof. vm_compute. repeat split. discriminate. Qed.

(** C5, as the code has it: in a session driven through the page there is
    never more than one generation call pending, and while one is pending
    (or the phase is Generating) "Generate Echo Image" is not offered and a
    press changes nothing: no state cell, no pending call, no call to the
    service.  The guard is the [disabled] attribute of the button;
    [handleGenerate] itself has none: called with a file selected it issues
    the encoding call and suspends on it, whatever is in flight. *)
Theorem single_generation_in_flight (h : Holder) (es : list Event) :
  let w := uiRun (mount h) es in
  List.length (inFlight w) <= 1
  /\ (phase w = Generating \/ inFlight w <> [] ->
      offered w ClickGenerate = false /\ uiStep w ClickGenerate = w)
  /\ (forall file : File,
        mounted w = true -> uploadedImageFile (state w) = Some file ->
        let w' := step w ClickGenerate in
        calls w' = calls w ++ [CallFileToBase64 file]
        /\ inFlight w'
           = inFlight w ++ [(nextTask w, AwaitFileToBase64 file)]).
Proof.
  intros w.
  destruct (inv_single_uiReachable (uiReachable_uiRun h es)) as [Hlen Hidle].
  fold w in Hlen, Hidle. split; [assumption|]. split.
  - intros Hbusy.
    assert (Hoff : offered w ClickGenerate = false).
    { destruct (offered w ClickGenerate) eqn:Hoff; [exfalso | reflexivity].
      unfold offered, view in Hoff.
      pose proof (buttons_offered_idle _ _ Hoff) as Hl.
      destruct (mounted w); [|discriminate].
      destruct Hbusy as [Hph | Hfl].
      - apply phase_Generating_inv in Hph as [_ Hload]. congruence.
      - apply Hfl. now apply Hidle. }
    split; [assumption|]. unfold uiStep. now rewrite Hoff.
  - intros file Hm Hfile.
    destruct (@step_generate_started w file Hm Hfile)
      as (_ & _ & Hp & _ & Hc).
    split; [assumption|].
    unfold inFlight. rewrite Hp, filter_app. reflexivity.
Qed.

Lemma single_generation_in_flight_witness :
  let w := uiRun (mount None) toGeneratingA in
  phase w = Generating
  /\ List.length (inFlight w) <= 1
  /\ offered w ClickGenerate = false
  /\ uiStep w ClickGenerate = w.
Proof.
  destruct (@single_generation_in_flight None toGeneratingA)
    as (Hlen & Hnoop & _).
  assert (Hph : phase (uiRun (mount None) toGeneratingA) = Generating)
    by (vm_compute; reflexivity).
  exact (conj Hph (conj Hlen (Hnoop (or_introl Hph)))).
Defined.

(** C5, counterexample: [handleGenerate] invoked while a generation is in
    flight (phase Generating, call 1 pending) is no no-op: it queues a
    second encoding, and once that is done a second remote call. *)
Lemma startGeneration_in_flight_issues_second_call :
  let w := generatingA in
  let w' := step w ClickGenerate in
  let w'' := step w' (FileToBase64Settled 2 (Fulfilled "QUJD")) in
  phase w = Generating
  /\ inFlight w = [(1, AwaitGenerate imgA)]
  /\ inFlight w' = [(1, AwaitGenerate imgA); (2, AwaitFileToBase64 imgA)]
  /\ calls w' = calls w ++ [CallFileToBase64 imgA]
  /\ inFlight w'' = [(1, AwaitGenerate imgA); (2, AwaitGenerate imgA)]
  /\ calls w'' = calls w ++ [CallFileToBase64 imgA;
                             CallGenerate "QUJD" "image/png"]
  /\ w' <> w.
Proof.
  vm_compute. repeat split. discriminate.
Qed.

(** In the sample session a generation is in flight, and the click is
    not offered. *)
Example generating_sample_is_busy :
  let w := uiRun (mount None) toGeneratingA in
  phase w = Generating
  /\ inFlight w = [(1, AwaitGenerate imgA)]
  /\ calls (uiStep w ClickGenerate) = calls w.
Proof. vm_compute. repeat split. Qed.

(** The same staleness through the page alone: the call started for image A
    survives "Change API Key", and its result is shown next to image B. *)
Example stale_result_through_the_page :
  let w := uiRun generatingA
             [ClickChangeApiKey; SubmitApiKey "new-key";
              InitializeSettled 2 (Fulfilled tt); UploadImage imgB;
              GenerateSettled 1 (Fulfilled r1)] in
  uploadedImageFile (state w) = Some imgB
  /\ generatedImageUrl (state w) = Some (imageUrl r1)
  /\ phase w = Generated.
Proof. vm_compute. repeat split. Qed.

Lemma truthy_Some_not_None (v : option string) : truthy v = true -> v <> None.
Proof. destruct v; [discriminate | intros [=]]. Qed.

(** C3, as the code has it: the record of state cells has no phase field;
    [phase] is computed on every read from the controller's own cells, with
    [isKeySet] in the place of "client bound?" (two states with the same
    [facts] are in the same phase).  On every reachable state the phase is
    NeedsCredential when [isKeySet] is clear, whatever the service holds,
    and otherwise it is [phaseOf] of the four facts with the service's
    answer to "client bound?", which is then yes.  The phase agrees with
    what is rendered and with the data: the credential form is rendered
    exactly in NeedsCredential, the spinner exactly in Generating, the
    result panel exactly in Generated; Generated comes with a stored
    result, no call loading and the service holding a client; Generating
    comes with no stored result; ImageSelected with a file, Ready without
    one. *)
Theorem phase_is_derived_and_consistent (h : Holder) (es : list Event) :
  let w := run (mount h) es in
  phase w = (if isKeySet (state w) then phaseOf (holderFacts w)
             else NeedsCredential)
  /\ (forall w', facts (state w') = facts (state w) -> phase w' = phase w)
  /\ (isKeySet (state w) = true -> isClientInitialized (holder w) = true)
  /\ (apiKeyInput (view w) = true <-> phase w = NeedsCredential)
  /\ (spinner (view w) = true <-> phase w = Generating)
  /\ (generatedImageDisplay (view w) = true <-> phase w = Generated)
  /\ (phase w = Generated ->
        generatedImageUrl (state w) <> None
        /\ generatedPrompt (state w) <> None
        /\ isLoading (state w) = false
        /\ isKeySet (state w) = true
        /\ isClientInitialized (holder w) = true)
  /\ (phase w = Generating ->
        generatedImageUrl (state w) = None
        /\ generatedPrompt (state w) = None
        /\ isClientInitialized (holder w) = true)
  /\ (phase w = ImageSelected ->
        uploadedImageFile (state w) <> None
        /\ isClientInitialized (holder w) = true)
  /\ (phase w = Ready ->
        uploadedImageFile (state w) = None
        /\ uploadedImagePreview (state w) = None
        /\ isClientInitialized (holder w) = true)
  /\ (phase w = NeedsCredential <-> isKeySet (state w) = false).
Proof.
  intros w.
  assert (HI : Inv w) by apply Inv_run, Inv_mount.
  destruct HI as [Hb Hl [Hfp Hurl] _ _ _].
  unfold inv_bound, inv_loading in *.
  unfold phase, phaseOf, holderFacts, facts, view, render. cbn.
  destruct (isKeySet (state w)) eqn:Hkey; cbn.
  2: { split; [reflexivity|].
       split; [intros w' E; now injection E as -> -> -> ->|].
       repeat split; intros; try discriminate; auto. }
  rewrite (Hb eq_refl). cbn.
  split; [reflexivity|].
  split; [intros w' E; now injection E as -> -> -> ->|].
  split; [reflexivity|].
  destruct (isLoading (state w)) eqn:Hload; cbn.
  - destruct (Hl eq_refl) as [-> ->]. cbn.
    repeat split; intros; try discriminate; auto.
  - destruct (truthy (generatedImageUrl (state w))) eqn:Tu;
      destruct (truthy (generatedPrompt (state w))) eqn:Tp; cbn;
      destruct (truthy (uploadedImagePreview (state w))) eqn:Ti; cbn;
      repeat split; intros; try discriminate; auto using truthy_Some_not_None.
    all: try (intros Hf; apply Hfp in Hf; rewrite Hf in Ti; discriminate).
    all: try (destruct (uploadedImagePreview (state w)) as [url|] eqn:Ep;
              [destruct (Hurl url eq_refl) as (i & _ & ->); discriminate
              | tauto]).
Qed.

Lemma phase_is_derived_and_consistent_witness :
  let w := run (mount None)
             (toGeneratingA ++ [GenerateSettled 1 (Fulfilled r1)]) in
  phase w = Generated
  /\ generatedImageUrl (state w) <> None
  /\ isKeySet (state w) = true
  /\ isClientInitialized (holder w) = true.
Proof.
  pose proof (@phase_is_derived_and_consistent None
                (toGeneratingA ++ [GenerateSettled 1 (Fulfilled r1)])) as H.
  cbv zeta in H. destruct H as (_ & _ & _ & _ & _ & _ & H & _).
  assert (Hp : phase (run (mount None)
                        (toGeneratingA ++ [GenerateSettled 1 (Fulfilled r1)]))
               = Generated) by (vm_compute; reflexivity).
  destruct (H Hp) as (H1 & _ & _ & H4 & H5).
  exact (conj Hp (conj H1 (conj H4 H5))).
Defined.

(** C3, counterexample: with the service's answer for "client bound?" the
    phase is no function of the four facts.  Before and after "Change API
    Key" the service holds a client, no image is selected, nothing is in
    flight and there is no result, yet the phase is Ready before and
    NeedsCredential after. *)
Lemma phase_differs_on_equal_holder_facts :
  let w1 := uiRun (mount None) toReady in
  let w2 := uiRun (mount None) (toReady ++ [ClickChangeApiKey]) in
  holderFacts w1 = mkFacts true false false false
  /\ holderFacts w2 = holderFacts w1
  /\ phase w1 = Ready
  /\ phase w2 = NeedsCredential
  /\ phase w2 <> phase w1.
Proof. vm_compute. repeat split. discriminate. Qed.

Lemma count_occ_NoDup_app (l1 l2 : list string) (x : string) :
  NoDup (l1 ++ l2) ->
  count_occ string_dec l1 x
  = if in_dec string_dec x (l1 ++ l2)
    then (if in_dec string_dec x l2 then 0 else 1)
    else 0.
Proof.
  intros Hnd.
  pose proof (proj1 (NoDup_count_occ string_dec (l1 ++ l2)) Hnd x) as Hle.
  rewrite count_occ_app in Hle.
  destruct (in_dec string_dec x (l1 ++ l2)) as [Hin|Hout].
  - destruct (in_dec string_dec x l2) as [H2|H2].
    + apply (count_occ_In string_dec) in H2. lia.
    + apply in_app_or in Hin as [H1|H1]; [|contradiction].
      apply (count_occ_In string_dec) in H1.
      apply (count_occ_not_In string_dec) in H2. lia.
  - apply (count_occ_not_In string_dec). intros H1. apply Hout.
    apply in_or_app. now left.
Qed.

(** C8: after any sequence of events (image selections, reselections,
    credential changes, unmounting, and everything else the component can
    go through) the object URLs passed to [URL.revokeObjectURL], in order,
    followed by the one still held, are exactly the URLs created, in order
    and without repetition.  So the number of releases is the number of
    previews created and no longer held, and every URL has been released
    once if it was created and is no longer held, and never otherwise. *)
Theorem previews_released_exactly_once (h : Holder) (es : list Event) :
  let w := run (mount h) es in
  revoked w ++ held w = allocated w
  /\ NoDup (allocated w)
  /\ List.length (revoked w) + List.length (held w) = created w
  /\ forall url,
       count_occ string_dec (revoked w) url
       = if in_dec string_dec url (allocated w)
         then (if in_dec string_dec url (held w) then 0 else 1)
         else 0.
Proof.
  intros w.
  assert (HI : Inv w) by apply Inv_run, Inv_mount.
  pose proof (Inv_handles HI) as H. unfold inv_handles in H.
  assert (Hnd : NoDup (allocated w)) by apply NoDup_allocated.
  repeat split; try assumption.
  - rewrite <- length_app, H. unfold allocated.
    now rewrite length_map, length_seq.
  - intros url. rewrite <- H. apply count_occ_NoDup_app. now rewrite H.
Qed.

(** A session that selects, reselects, changes the credential, selects
    again and is torn down: both previews released, each once. *)
Example previews_released_sample :
  let w := run ready [UploadImage imgA; ClickReselect; UploadImage imgB;
                      ClickChangeApiKey; ClickChangeApiKey; Unmount] in
  revoked w = [objectURL 0; objectURL 1] /\ held w = [].
Proof. vm_compute. split; reflexivity. Qed.

(** The whole effect of a click on "Reselect Image": the cells are cleared,
    the preview that was held is released, and ImageUpload comes back with
    an empty file input (when the main page is shown at all). *)
Lemma step_reselect w :
  mounted w = true ->
  step w ClickReselect
  = mkWorld true (afterReselect (state w)) (holder w) (created w)
      (revoked w ++ released (uploadedImagePreview (state w)))
      (if isKeySet (state w) then Some ""%string else None)
      (pending w) (nextTask w) (calls w).
Proof.
  intros Hm. destruct w as [m s h c r fi p n cl].
  cbn [mounted] in Hm. subst m.
  destruct s as [k ks ke kv f pv u pr l er].
  cbv beta iota zeta delta
    [step commit syncFileInput view render previewCleanup released sameValue
     afterReselect handleReselectImage revokeObjectURL
     setUploadedImageFile setUploadedImagePreview setGeneratedImageUrl
     setGeneratedPrompt setIsLoading setError setState
     with_state with_fileInput
     mounted state holder created revoked fileInput pending nextTask calls
     with_uploadedImageFile with_uploadedImagePreview with_generatedImageUrl
     with_generatedPrompt with_isLoading with_error
     apiKey isKeySet apiKeyError isKeyValidating uploadedImageFile
     uploadedImagePreview generatedImageUrl generatedPrompt isLoading error
     imageUpload negb andb truthy].
  destruct pv as [url|], fi, ks; cbv beta iota; split_match;
    rewrite ?app_nil_r; reflexivity.
Qed.

Lemma phase_Ready_inv w :
  phase w = Ready ->
  isKeySet (state w) = true /\ isLoading (state w) = false
  /\ truthy (uploadedImagePreview (state w)) = false.
Proof.
  unfold phase, phaseOf, facts. cbn.
  destruct (isKeySet (state w)), (isLoading (state w)); cbn;
    repeat match goal with
           | |- context [if ?b then _ else _] => destruct b eqn:?
           end; intros; try discriminate; auto.
Qed.

(** C9: [handleReselectImage] is idempotent on every state of the world
    (cells, released previews, file input, pending calls).  From phase
    Ready it leaves the phase at Ready, releases nothing, calls nothing and
    changes no cell other than the result and error cells it clears; when
    these are empty already, nothing changes at all. *)
Theorem reselect_is_idempotent :
  (forall w : World,
     step (step w ClickReselect) ClickReselect = step w ClickReselect)
  /\ (forall (h : Holder) (es : list Event),
        let w := run (mount h) es in
        mounted w = true ->
        phase w = Ready ->
        let w' := step w ClickReselect in
        phase w' = Ready
        /\ w' = with_state (clearedByReselect (state w)) w
        /\ (generatedImageUrl (state w) = None ->
            generatedPrompt (state w) = None ->
            error (state w) = None ->
            w' = w)).
Proof.
  split.
  - intros w. destruct (mounted w) eqn:Hm.
    + rewrite (step_reselect w Hm).
      rewrite step_reselect by reflexivity.
      cbn [state holder created revoked pending nextTask calls].
      destruct (state w). cbn. now rewrite app_nil_r.
    + destruct w as [m s h c r fi p n cl]. cbn [mounted] in Hm. subst m.
      reflexivity.
  - intros h es w Hm Hph w'.
    assert (HI : Inv w) by apply Inv_run, Inv_mount.
    apply phase_Ready_inv in Hph as (Hkey & Hload & Himg).
    destruct (Inv_image HI) as [Hfp Hurl].
    assert (Hpv : uploadedImagePreview (state w) = None).
    { destruct (uploadedImagePreview (state w)) as [url|] eqn:E;
        [|reflexivity].
      destruct (Hurl url eq_refl) as (i & _ & ->). discriminate. }
    assert (Hfile : uploadedImageFile (state w) = None) by now apply Hfp.
    pose proof (Inv_dom HI) as Hdom. unfold inv_dom, view, render in Hdom.
    rewrite Hm, Hkey, Hpv in Hdom. cbn in Hdom.
    assert (Hw' : w' = with_state (clearedByReselect (state w)) w).
    { subst w'. rewrite (step_reselect w Hm). rewrite Hpv, Hkey.
      cbn [released]. rewrite app_nil_r.
      destruct w as [m s h0 c r fi p n cl]. cbn in *. subst.
      destruct s. cbn in *. subst. reflexivity. }
    split; [|split; [exact Hw'|]].
    + rewrite Hw'. unfold phase, phaseOf, facts. cbn.
      now rewrite Hkey, Hload, Hpv.
    + intros Hu Hp He. rewrite Hw'.
      destruct w as [m s h0 c r fi p n cl]. cbn in *.
      destruct s. cbn in *. subst. reflexivity.
Qed.

Lemma reselect_is_idempotent_witness :
  step (step generatingA ClickReselect) ClickReselect
  = step generatingA ClickReselect
  /\ step ready ClickReselect = ready.
Proof.
  destruct reselect_is_idempotent as [H1 H2]. split; [apply H1|].
  apply (H2 None toReady); vm_compute; reflexivity.
Defined.


(* ================================================================== *)
(** ** Further properties: the credential form *)
(* ================================================================== *)

Lemma trimEnd_empty_blank (t : string) : trimEnd t = ""%string -> blank t = true.
Proof.
  unfold blank. induction t as [|c t IH]; simpl; [reflexivity|].
  destruct (trimEnd t) eqn:E; [|discriminate].
  destruct (isWhiteSpace c); [|discriminate].
  intros _. now apply IH.
Qed.

Lemma trimStart_keeps_blank (s : string) :
  blank (trimStart s) = true -> blank s = true.
Proof.
  unfold blank. induction s as [|c s IH]; simpl; [reflexivity|].
  destruct (isWhiteSpace c) eqn:E; simpl.
  - exact IH.
  - now rewrite E.
Qed.

(** [!submittedKey.trim()] holds exactly for the strings that are empty or
    made of white space only. *)
Lemma trim_empty_iff_blank (s : string) : trim s = ""%string <-> blank s = true.
Proof.
  split; [|apply trim_blank].
  intros H. apply trimStart_keeps_blank, trimEnd_empty_blank, H.
Qed.

Lemma nonblank_trim (s : string) : blank s = false -> trim s <> ""%string.
Proof.
  intros Hb Ht. apply trim_empty_iff_blank in Ht. congruence.
Qed.

Lemma step_initialize_rejected w id submittedKey err :
  mounted w = true ->
  lookupTask id (pending w) = Some (AwaitInitialize submittedKey) ->
  let w' := step w (InitializeSettled id (Rejected err)) in
  mounted w' = true
  /\ state w'
     = (state w |> with_apiKeyError
                     (Some ("Invalid API Key or setup failed: "
                            ++ initializationErrorMessage err
                            ++ ". Please check your key and try again.")%string)
                |> with_isKeySet false
                |> with_isKeyValidating false)
  /\ pending w' = removeTask id (pending w)
  /\ holder w' = holder w
  /\ calls w' = calls w
  /\ revoked w' = revoked w.
Proof.
  intros Hm Ht. known_world w Hm. rewrite Ht. cbv zeta.
  rewrite revoked_commit. autorewrite with frame.
  eval_world. eval_state. rewrite sameValue_refl, app_nil_r.
  destruct err; auto 8.
Qed.

Lemma step_submit_blank w submittedKey :
  mounted w = true ->
  blank submittedKey = true ->
  let w' := step w (SubmitApiKey submittedKey) in
  state w' = (state w |> with_apiKeyError (Some "API Key cannot be empty."%string)
                      |> with_isKeySet false)
  /\ pending w' = pending w
  /\ calls w' = calls w.
Proof.
  intros Hm Hb. known_world w Hm. cbv zeta. autorewrite with frame.
  unfold handleApiKeySubmit. rewrite (trim_blank _ Hb).
  cbn [truthy negb String.eqb]. eval_world. auto.
Qed.

(** X1: [handleApiKeySubmit] calls the service exactly when the key is not
    blank, once, and with the key as it was typed (surrounding white space
    included); it then raises the validating flag and clears the
    credential error, leaving the stored key and [isKeySet] alone until
    the call settles. *)
Theorem credential_submission_calls (w : World) (submittedKey : string) :
  mounted w = true ->
  let w' := step w (SubmitApiKey submittedKey) in
  calls w' = (if blank submittedKey then calls w
              else calls w ++ [CallInitialize submittedKey])
  /\ pending w' = (if blank submittedKey then pending w
                   else pending w ++ [(nextTask w, AwaitInitialize submittedKey)])
  /\ isKeyValidating (state w')
     = (if blank submittedKey then isKeyValidating (state w) else true)
  /\ (blank submittedKey = false ->
        apiKeyError (state w') = None
        /\ isKeySet (state w') = isKeySet (state w)
        /\ apiKey (state w') = apiKey (state w)).
Proof.
  intros Hm w'. destruct (blank submittedKey) eqn:Hb.
  - destruct (@step_submit_blank w submittedKey Hm Hb) as (Hs & Hp & Hc).
    fold w' in Hs, Hc, Hp. rewrite Hs, Hc, Hp. eval_state.
    repeat split; discriminate.
  - destruct (@step_submit_nonblank w submittedKey Hm (nonblank_trim _ Hb))
      as (_ & Hs & Hp & _ & _ & Hc & _).
    fold w' in Hs, Hc, Hp. rewrite Hs, Hc, Hp. eval_state.
    repeat split.
Qed.

Lemma credential_submission_calls_witness :
  let w := mount None in
  let submittedKey := " k "%string in
  let w' := step w (SubmitApiKey submittedKey) in
  calls w' = (if blank submittedKey then calls w
              else calls w ++ [CallInitialize submittedKey])
  /\ pending w' = (if blank submittedKey then pending w
                   else pending w ++ [(nextTask w, AwaitInitialize submittedKey)])
  /\ isKeyValidating (state w')
     = (if blank submittedKey then isKeyValidating (state w) else true)
  /\ (blank submittedKey = false ->
        apiKeyError (state w') = None
        /\ isKeySet (state w') = isKeySet (state w)
        /\ apiKey (state w') = apiKey (state w)).
Proof.
  apply (@credential_submission_calls (mount None) " k "%string).
  vm_compute; reflexivity.
Defined.

Lemma phase_not_NeedsCredential w :
  isKeySet (state w) = true -> phase w <> NeedsCredential.
Proof.
  unfold phase, phaseOf, facts. cbn. intros ->. cbn.
  repeat match goal with
         | |- context [if ?b then _ else _] => destruct b
         end; discriminate.
Qed.

(** X2: when the initialize call for a non-blank key is fulfilled, the key
    is stored, [isKeySet] is set, both error cells are empty and the
    validating flag is down; the image, its preview, the stored result and
    the in-flight flag are what they were before the key was submitted, no
    preview is released, and the one call made is the initialize call. *)
Theorem accepted_credential_opens_session
    (h : Holder) (es : list Event) (submittedKey : string) :
  let w := run (mount h) es in
  mounted w = true ->
  blank submittedKey = false ->
  let w' := run w [SubmitApiKey submittedKey;
                   InitializeSettled (nextTask w) (Fulfilled tt)] in
  (isKeySet (state w') = true
   /\ phase w' <> NeedsCredential
   /\ apiKey (state w') = submittedKey
   /\ error (state w') = None
   /\ apiKeyError (state w') = None
   /\ isKeyValidating (state w') = false)
  /\ (uploadedImageFile (state w') = uploadedImageFile (state w)
      /\ uploadedImagePreview (state w') = uploadedImagePreview (state w)
      /\ generatedImageUrl (state w') = generatedImageUrl (state w)
      /\ generatedPrompt (state w') = generatedPrompt (state w)
      /\ isLoading (state w') = isLoading (state w))
  /\ revoked w' = revoked w
  /\ calls w' = calls w ++ [CallInitialize submittedKey].
Proof.
  intros w Hm Hb w'. subst w'. cbn [run fold_left].
  assert (Hids : inv_ids w) by apply (Inv_ids (Inv_run es (Inv_mount h))).
  destruct (@step_submit_nonblank w submittedKey Hm (nonblank_trim _ Hb))
    as (Hm1 & Hs1 & Hp1 & _ & _ & Hc1 & Hr1).
  set (w1 := step w (SubmitApiKey submittedKey)) in *. clearbody w1.
  assert (Hl : lookupTask (nextTask w) (pending w1)
               = Some (AwaitInitialize submittedKey))
    by (rewrite Hp1; apply lookupTask_fresh, Hids).
  destruct (@step_initialize_fulfilled w1 (nextTask w) submittedKey Hm1 Hl)
    as (_ & Hs2 & _ & _ & Hc2 & Hr2).
  set (w2 := step w1 (InitializeSettled (nextTask w) (Fulfilled tt))) in *.
  clearbody w2.
  assert (Hk : isKeySet (state w2) = true) by now rewrite Hs2.
  split; [|split; [|split]].
  - split; [exact Hk|]. split; [now apply phase_not_NeedsCredential|].
    rewrite Hs2, Hs1. eval_state. auto.
  - rewrite Hs2, Hs1. eval_state. auto.
  - now rewrite Hr2, Hr1.
  - now rewrite Hc2, Hc1.
Qed.

Lemma accepted_credential_opens_session_witness :
  let w := run (mount None) (toGeneratingA ++ [ClickChangeApiKey]) in
  let w' := run w [SubmitApiKey "new-key";
                   InitializeSettled (nextTask w) (Fulfilled tt)] in
  (isKeySet (state w') = true
   /\ phase w' <> NeedsCredential
   /\ apiKey (state w') = "new-key"%string
   /\ error (state w') = None
   /\ apiKeyError (state w') = None
   /\ isKeyValidating (state w') = false)
  /\ (uploadedImageFile (state w') = uploadedImageFile (state w)
      /\ uploadedImagePreview (state w') = uploadedImagePreview (state w)
      /\ generatedImageUrl (state w') = generatedImageUrl (state w)
      /\ generatedPrompt (state w') = generatedPrompt (state w)
      /\ isLoading (state w') = isLoading (state w))
  /\ revoked w' = revoked w
  /\ calls w' = calls w ++ [CallInitialize "new-key"%string].
Proof.
  apply (@accepted_credential_opens_session None
           (toGeneratingA ++ [ClickChangeApiKey]) "new-key"%string);
    vm_compute; reflexivity.
Defined.

(** X3: when the initialize call is rejected, the credential error reads
    "Invalid API Key or setup failed: <message>. Please check your key and
    try again." (with "An unknown error occurred." for a thrown value that
    is not an [Error]), [isKeySet] is cleared, so the phase is
    NeedsCredential, and the validating flag is down; the stored key, the
    page error, the image and the stored result are untouched. *)
Theorem rejected_credential_is_reported
    (h : Holder) (es : list Event) (submittedKey : string) (err : Thrown) :
  let w := run (mount h) es in
  mounted w = true ->
  blank submittedKey = false ->
  let w' := run w [SubmitApiKey submittedKey;
                   InitializeSettled (nextTask w) (Rejected err)] in
  apiKeyError (state w')
  = Some ("Invalid API Key or setup failed: "
          ++ initializationErrorMessage err
          ++ ". Please check your key and try again.")%string
  /\ isKeySet (state w') = false
  /\ phase w' = NeedsCredential
  /\ isKeyValidating (state w') = false
  /\ apiKey (state w') = apiKey (state w)
  /\ error (state w') = error (state w)
  /\ uploadedImageFile (state w') = uploadedImageFile (state w)
  /\ uploadedImagePreview (state w') = uploadedImagePreview (state w)
  /\ generatedImageUrl (state w') = generatedImageUrl (state w)
  /\ generatedPrompt (state w') = generatedPrompt (state w)
  /\ calls w' = calls w ++ [CallInitialize submittedKey].
Proof.
  intros w Hm Hb w'. subst w'. cbn [run fold_left].
  assert (Hids : inv_ids w) by apply (Inv_ids (Inv_run es (Inv_mount h))).
  destruct (@step_submit_nonblank w submittedKey Hm (nonblank_trim _ Hb))
    as (Hm1 & Hs1 & Hp1 & _ & _ & Hc1 & _).
  set (w1 := step w (SubmitApiKey submittedKey)) in *. clearbody w1.
  assert (Hl : lookupTask (nextTask w) (pending w1)
               = Some (AwaitInitialize submittedKey))
    by (rewrite Hp1; apply lookupTask_fresh, Hids).
  destruct (@step_initialize_rejected w1 (nextTask w) submittedKey err Hm1 Hl)
    as (_ & Hs2 & _ & _ & Hc2 & _).
  set (w2 := step w1 (InitializeSettled (nextTask w) (Rejected err))) in *.
  clearbody w2.
  assert (Hph : phase w2 = NeedsCredential)
    by (apply phase_NeedsCredential; now rewrite Hs2).
  rewrite Hph, Hs2, Hs1, Hc2, Hc1. eval_state. repeat split.
Qed.

Lemma rejected_credential_is_reported_witness :
  let w := run (mount None) [] in
  let w' := run w [SubmitApiKey "bad-key";
                   InitializeSettled (nextTask w) (Rejected NonError)] in
  apiKeyError (state w')
  = Some ("Invalid API Key or setup failed: "
          ++ initializationErrorMessage NonError
          ++ ". Please check your key and try again.")%string
  /\ isKeySet (state w') = false
  /\ phase w' = NeedsCredential
  /\ isKeyValidating (state w') = false
  /\ apiKey (state w') = apiKey (state w)
  /\ error (state w') = error (state w)
  /\ uploadedImageFile (state w') = uploadedImageFile (state w)
  /\ uploadedImagePreview (state w') = uploadedImagePreview (state w)
  /\ generatedImageUrl (state w') = generatedImageUrl (state w)
  /\ generatedPrompt (state w') = generatedPrompt (state w)
  /\ calls w' = calls w ++ [CallInitialize "bad-key"%string].
Proof.
  apply (@rejected_credential_is_reported None [] "bad-key"%string NonError);
    vm_compute; reflexivity.
Defined.

(* ================================================================== *)
(** ** Further properties: flags and pending calls *)
(* ================================================================== *)

Lemma filter_validation_removeTask_other id t l :
  lookupTask id l = Some t -> isValidation (id, t) = false ->
  filter isValidation (removeTask id l) = filter isValidation l.
Proof.
  induction l as [|[i t0] l IH]; simpl; [discriminate|].
  destruct (Nat.eqb_spec i id) as [->|Hne].
  - intros [= ->] Hg. unfold isValidation in *. simpl in *. now rewrite Hg.
  - intros Hl Hg. simpl. now rewrite IH.
Qed.

Lemma filter_validation_removeTask id t l :
  lookupTask id l = Some t -> isValidation (id, t) = true ->
  S (List.length (filter isValidation (removeTask id l)))
  = List.length (filter isValidation l).
Proof.
  induction l as [|[i t0] l IH]; simpl; [discriminate|].
  destruct (Nat.eqb_spec i id) as [->|Hne].
  - intros [= ->] Hg. unfold isValidation in *. simpl in *. now rewrite Hg.
  - intros Hl Hg. simpl. destruct (isValidation (i, t0)); simpl; now rewrite IH.
Qed.

Lemma filter_validation_replaceTask id t t' l :
  lookupTask id l = Some t -> isValidation (id, t) = false ->
  isValidation (id, t') = false ->
  filter isValidation (replaceTask id t' l) = filter isValidation l.
Proof.
  induction l as [|[i t0] l IH]; simpl; [discriminate|].
  destruct (Nat.eqb_spec i id) as [->|Hne].
  - intros [= ->] Hg Hg'. unfold isValidation in *. simpl in *.
    now rewrite Hg, Hg'.
  - intros Hl Hg Hg'. simpl. now rewrite IH.
Qed.

Lemma filter_validation_await_generation l n f :
  filter isValidation (l ++ [(n, AwaitFileToBase64 f)]) = filter isValidation l.
Proof. rewrite filter_app. simpl. apply app_nil_r. Qed.

Lemma app_singleton_not_nil (A : Type) (l : list A) (x : A) : l ++ [x] <> [].
Proof. destruct l; discriminate. Qed.

Lemma filter_replaceTask_not_nil id t t' l :
  lookupTask id l = Some t -> isGeneration (id, t) = true ->
  isGeneration (id, t') = true ->
  filter isGeneration (replaceTask id t' l) <> [].
Proof.
  intros Hl Hg Hg' E.
  pose proof (filter_replaceTask_generation _ _ _ Hl Hg Hg') as Hlen.
  pose proof (filter_removeTask_generation _ _ Hl Hg) as Hrm.
  rewrite E in Hlen. simpl in Hlen. lia.
Qed.

Lemma inv_busy_mount h : inv_busy (mount h).
Proof. rewrite mount_eq. unfold inv_busy. cbn. discriminate. Qed.

Lemma inv_busy_step w e : inv_busy w -> inv_busy (step w e).
Proof.
  unfold inv_busy, inFlight.
  step_cases w e; intros H;
    rewrite ?pending_commit, ?mounted_commit, ?state_commit,
      ?pending_unmount, ?mounted_unmount, ?state_unmount;
    try assumption; try (intros; discriminate).
  all: cbn [pending mounted state] in H; eval_world; split_match;
    try (intros; discriminate); try assumption.
  all: rewrite ?filter_app; cbn [filter isGeneration snd];
    rewrite ?app_nil_r; try assumption;
    try (intros _ _; apply app_singleton_not_nil).
  all: try (rewrite (filter_removeTask_other _ _ Ht eq_refl); assumption).
  all: intros _ Hl; eapply filter_replaceTask_not_nil; eauto.
Qed.

Lemma inv_busy_reachable w : reachable w -> inv_busy w.
Proof. induction 1; [apply inv_busy_mount | now apply inv_busy_step]. Qed.

Lemma inv_validation_mount h : inv_validation (mount h).
Proof.
  rewrite mount_eq. unfold inv_validation, validating. cbn.
  split; [lia|]. intros _. split; [discriminate | intros H; now elim H].
Qed.

(** ApiKeyInput forwards a submission only while nothing is validating. *)
Lemma submit_offered_idle (m : bool) (s : State) :
  m && apiKeyInput (render s) && negb (isKeyValidating s) = true ->
  isKeyValidating s = false.
Proof.
  destruct m, (apiKeyInput (render s)), (isKeyValidating s);
    simpl; congruence.
Qed.

Lemma inv_validation_uiStep w e :
  inv_validation w -> inv_validation (uiStep w e).
Proof.
  unfold uiStep. destruct (offered w e) eqn:Hoff; [|trivial].
  unfold inv_validation, validating. revert Hoff.
  step_cases w e; unfold offered, view;
    cbn [mounted state pending]; intros Hoff [Hlen Hflag];
    rewrite ?pending_commit, ?mounted_commit, ?state_commit,
      ?pending_unmount, ?mounted_unmount, ?state_unmount;
    try (split; [assumption | auto]; fail); try discriminate;
    try (split; [assumption | intros; discriminate]).
  all: try apply submit_offered_idle in Hoff.
  all: eval_world; split_match;
    rewrite ?filter_validation_await_generation;
    try (split; [assumption | assumption]).
  all: try (rewrite (filter_validation_removeTask_other _ _ Ht eq_refl);
            split; [assumption | assumption]).
  all: try (pose proof (filter_validation_removeTask _ _ Ht eq_refl) as Hrm;
            assert (Hnil : filter isValidation (removeTask id p) = [])
              by (apply length_le_1_nil; rewrite Hrm; assumption);
            rewrite Hnil; split; [simpl; lia|]; intros _;
            split; [discriminate | intros H; now elim H]).
  all: try (pose proof (filter_validation_removeTask _ _ Ht eq_refl) as Hrm;
            split; [lia | intros; discriminate]).
  all: try (rewrite (filter_validation_replaceTask _ (AwaitGenerate _) _ Ht
                       eq_refl eq_refl); split; assumption).
  (* a key is submitted: nothing was validating *)
  assert (Hnil : filter isValidation p = []).
  { destruct (filter isValidation p) eqn:E; [reflexivity|].
    assert (Hv : isKeyValidating s = true)
      by (apply (Hflag eq_refl); discriminate).
    congruence. }
  rewrite filter_app, Hnil. cbn. split; [lia|]. intros _.
  split; [intros _; discriminate | reflexivity].
Qed.

Lemma inv_validation_uiReachable w : uiReachable w -> inv_validation w.
Proof.
  induction 1; [apply inv_validation_mount | now apply inv_validation_uiStep].
Qed.

(** X4: in a session driven through the page, at most one initialize call
    is pending at any time, and the validating flag (which disables the
    form) is up exactly while one is pending. *)
Theorem single_validation_in_flight (h : Holder) (es : list Event) :
  let w := uiRun (mount h) es in
  List.length (validating w) <= 1
  /\ (mounted w = true ->
      (isKeyValidating (state w) = true <-> validating w <> [])).
Proof.
  intros w. exact (inv_validation_uiReachable (uiReachable_uiRun h es)).
Qed.

(** X5: in a session driven through the page, the in-flight flag (which
    disables both buttons and shows the spinner) is up exactly while a
    generation call is pending: the buttons are never left disabled with
    nothing to wait for. *)
Theorem loading_flag_tracks_pending_generation (h : Holder) (es : list Event) :
  let w := uiRun (mount h) es in
  mounted w = true ->
  (isLoading (state w) = true <-> List.length (inFlight w) = 1)
  /\ (isLoading (state w) = false <-> inFlight w = []).
Proof.
  intros w Hm.
  pose proof (uiReachable_uiRun h es) as Hui. fold w in Hui.
  destruct (inv_single_uiReachable Hui) as [Hlen Hidle].
  pose proof (inv_busy_reachable (uiReachable_reachable Hui) Hm) as Hbusy.
  specialize (Hidle Hm).
  destruct (isLoading (state w)) eqn:Hl.
  - specialize (Hbusy eq_refl).
    destruct (inFlight w) as [|q [|q' l]]; simpl in *;
      try (now elim Hbusy); try lia.
    repeat split; auto; intros; discriminate.
  - rewrite (Hidle eq_refl). repeat split; auto; intros; discriminate.
Qed.

Lemma single_validation_in_flight_witness :
  let w := uiRun (mount None) [SubmitApiKey "good-key"; SubmitApiKey "other"] in
  List.length (validating w) <= 1
  /\ isKeyValidating (state w) = true
  /\ validating w <> [].
Proof.
  destruct (@single_validation_in_flight None
              [SubmitApiKey "good-key"; SubmitApiKey "other"]) as [Hlen Hflag].
  assert (Hv : isKeyValidating
                 (state (uiRun (mount None)
                           [SubmitApiKey "good-key"; SubmitApiKey "other"]))
               = true) by (vm_compute; reflexivity).
  assert (Hm : mounted (uiRun (mount None)
                          [SubmitApiKey "good-key"; SubmitApiKey "other"])
               = true) by (vm_compute; reflexivity).
  exact (conj Hlen (conj Hv (proj1 (Hflag Hm) Hv))).
Defined.

Lemma loading_flag_tracks_pending_generation_witness :
  let w := uiRun (mount None) toGeneratingA in
  (isLoading (state w) = true <-> List.length (inFlight w) = 1)
  /\ (isLoading (state w) = false <-> inFlight w = []).
Proof.
  apply (@loading_flag_tracks_pending_generation None toGeneratingA).
  vm_compute; reflexivity.
Defined.

(* ================================================================== *)
(** ** Further properties: selecting an image *)
(* ================================================================== *)

Lemma objectURL_not_allocated c : ~ In (objectURL c) (map objectURL (seq 0 c)).
Proof.
  intros H. apply in_map_iff in H as (i & Hi & Hin).
  apply objectURL_inj in Hi. apply in_seq in Hin. lia.
Qed.

Lemma held_released w :
  inv_image w -> mounted w = true ->
  released (uploadedImagePreview (state w)) = held w.
Proof.
  intros [_ Hurl] Hm. unfold held. rewrite Hm.
  destruct (uploadedImagePreview (state w)) as [url|]; [|reflexivity].
  destruct (Hurl url eq_refl) as (i & _ & ->). apply released_objectURL.
Qed.

Lemma revoked_step_upload w file :
  inv_image w -> mounted w = true ->
  revoked (step w (UploadImage file)) = revoked w ++ held w
  /\ created (step w (UploadImage file)) = S (created w).
Proof.
  intros Himg Hm. rewrite <- (held_released Himg Hm).
  destruct Himg as [_ Hurl].
  known_world w Hm. rewrite revoked_commit, created_commit.
  eval_world. eval_state. split; [|reflexivity]. f_equal.
  destruct (uploadedImagePreview s) as [url|]; [|reflexivity].
  destruct (Hurl url eq_refl) as (i & Hi & ->).
  now rewrite sameValue_objectURL.
Qed.

(** X6: [handleImageUpload] stores the file with a preview URL that has
    never been handed out (so has never been released), clears the stored
    result and the page error, and releases the preview it supersedes, if
    any, at once.  It makes no call to the service and leaves the
    credential cells and the in-flight flag as they are. *)
Theorem upload_selects_image_and_releases_previous
    (h : Holder) (es : list Event) (file : File) :
  let w := run (mount h) es in
  mounted w = true ->
  let w' := step w (UploadImage file) in
  (uploadedImageFile (state w') = Some file
   /\ uploadedImagePreview (state w') = Some (objectURL (created w))
   /\ ~ In (objectURL (created w)) (allocated w)
   /\ ~ In (objectURL (created w)) (revoked w'))
  /\ (generatedImageUrl (state w') = None
      /\ generatedPrompt (state w') = None
      /\ error (state w') = None)
  /\ revoked w' = revoked w ++ held w
  /\ (calls w' = calls w
      /\ pending w' = pending w
      /\ isLoading (state w') = isLoading (state w)
      /\ isKeySet (state w') = isKeySet (state w)
      /\ apiKey (state w') = apiKey (state w)).
Proof.
  intros w Hm w'.
  assert (HI : Inv w) by apply Inv_run, Inv_mount.
  destruct (@step_upload w file Hm) as (_ & Hs & Hp & _ & Hc).
  destruct (revoked_step_upload file (Inv_image HI) Hm) as [Hr _].
  fold w' in Hs, Hp, Hc, Hr.
  assert (Hfresh : ~ In (objectURL (created w)) (allocated w))
    by apply objectURL_not_allocated.
  rewrite Hs, Hp, Hc, Hr. eval_state.
  repeat split; try assumption.
  rewrite (Inv_handles HI). exact Hfresh.
Qed.

Lemma upload_selects_image_and_releases_previous_witness :
  let w := run (mount None) (toReady ++ [UploadImage imgA]) in
  let w' := step w (UploadImage imgB) in
  (uploadedImageFile (state w') = Some imgB
   /\ uploadedImagePreview (state w') = Some (objectURL (created w))
   /\ ~ In (objectURL (created w)) (allocated w)
   /\ ~ In (objectURL (created w)) (revoked w'))
  /\ (generatedImageUrl (state w') = None
      /\ generatedPrompt (state w') = None
      /\ error (state w') = None)
  /\ revoked w' = revoked w ++ held w
  /\ (calls w' = calls w
      /\ pending w' = pending w
      /\ isLoading (state w') = isLoading (state w)
      /\ isKeySet (state w') = isKeySet (state w)
      /\ apiKey (state w') = apiKey (state w)).
Proof.
  apply (@upload_selects_image_and_releases_previous None
           (toReady ++ [UploadImage imgA]) imgB).
  vm_compute; reflexivity.
Defined.

Lemma NoDup_app_disjoint (A : Type) (l1 l2 : list A) (x : A) :
  NoDup (l1 ++ l2) -> In x l2 -> ~ In x l1.
Proof.
  induction l1 as [|a l1 IH]; simpl; intros Hnd H2 H1; [assumption|].
  inversion Hnd as [|? ? Hnotin Hnd']; subst.
  destruct H1 as [->|H1].
  - apply Hnotin, in_or_app. now right.
  - now apply (IH Hnd' H2).
Qed.

(** X7: in every reachable state the preview the page shows is a [blob:]
    URL that was created by [URL.createObjectURL] and has not been passed
    to [URL.revokeObjectURL]: the image element never points at a released
    URL. *)
Theorem shown_preview_is_live (h : Holder) (es : list Event) (url : string) :
  let w := run (mount h) es in
  mounted w = true ->
  uploadedImagePreview (state w) = Some url ->
  startsWith url "blob:" = true
  /\ In url (allocated w)
  /\ ~ In url (revoked w).
Proof.
  intros w Hm Hp.
  assert (HI : Inv w) by apply Inv_run, Inv_mount.
  pose proof (Inv_handles HI) as Hh. unfold inv_handles in Hh.
  assert (Hheld : held w = [url]) by (unfold held; now rewrite Hm, Hp).
  destruct (Inv_image HI) as [_ Hurl].
  destruct (Hurl url Hp) as (i & Hi & ->).
  split; [|split].
  - unfold objectURL, startsWith. simpl.
    now destruct (NilEmpty.string_of_uint (Nat.to_uint i)).
  - rewrite <- Hh, Hheld. apply in_or_app. right. now left.
  - apply NoDup_app_disjoint with (l2 := held w).
    + rewrite Hh. apply NoDup_allocated.
    + rewrite Hheld. now left.
Qed.

Lemma shown_preview_is_live_witness :
  let w := run (mount None)
             (toReady ++ [UploadImage imgA; ClickReselect; UploadImage imgB]) in
  startsWith (objectURL 1) "blob:" = true
  /\ In (objectURL 1) (allocated w)
  /\ ~ In (objectURL 1) (revoked w).
Proof.
  apply (@shown_preview_is_live None
           (toReady ++ [UploadImage imgA; ClickReselect; UploadImage imgB])
           (objectURL 1)); vm_compute; reflexivity.
Defined.

(* ================================================================== *)
(** ** Further properties: messages that are never shown *)
(* ================================================================== *)

(** One character of a prefix test against a string that ends in ".". *)
Ltac peel_char m H :=
  let c := fresh "c" in
  destruct m as [|c m]; [vm_compute in H; discriminate|];
  cbn [append] in H; rewrite prefix_cons in H;
  match type of H with
  | context [ascii_dec ?a c] =>
      destruct (ascii_dec a c) as [<-|]; [|discriminate]
  end.

(** A message that starts with "API Key issue. " once "." is appended
    starts with "API Key". *)
Lemma key_issue_text_has_marker (m : string) :
  String.prefix "API Key issue. " (m ++ ".")%string = true ->
  String.prefix "API Key" m = true.
Proof.
  intros H.
  peel_char m H. peel_char m H. peel_char m H. peel_char m H.
  peel_char m H. peel_char m H. peel_char m H.
  rewrite !prefix_cons.
  repeat match goal with
         | |- context [ascii_dec ?a ?a] =>
             destruct (ascii_dec a a) as [_|Hne]; [|now elim Hne]
         end.
  apply prefix_empty.
Qed.

(** The text of line 92 is never mistaken for the text of line 89. *)
Lemma other_failure_text_differs (errorMessage : string) :
  isApiKeyIssue errorMessage = false ->
  isKeyIssueText (Some ("Generation Failed: " ++ errorMessage ++ ".")%string)
  = false.
Proof.
  intros Hno. apply not_true_is_false. intros H.
  unfold isKeyIssueText, keyIssuePrefix, startsWith in H.
  cbn [append] in H. rewrite !prefix_cons in H.
  repeat match type of H with
         | context [ascii_dec ?a ?a] =>
             destruct (ascii_dec a a) as [_|Hne]; [|now elim Hne]
         end.
  apply key_issue_text_has_marker, includes_prefix in H.
  unfold isApiKeyIssue in Hno. rewrite H in Hno. discriminate.
Qed.

Lemma inv_keyIssue_mount h : inv_keyIssue (mount h).
Proof. rewrite mount_eq. unfold inv_keyIssue. now cbn. Qed.

Lemma inv_keyIssue_step w e : inv_keyIssue w -> inv_keyIssue (step w e).
Proof.
  unfold inv_keyIssue.
  step_cases w e; autorewrite with frame;
    eval_world; split_match; intros H Hk;
    try discriminate; try reflexivity; try (now apply H).
  all: apply other_failure_text_differs; assumption.
Qed.

Lemma inv_keyIssue_reachable w : reachable w -> inv_keyIssue w.
Proof.
  induction 1; [apply inv_keyIssue_mount | now apply inv_keyIssue_step].
Qed.

(** X8: the text composed at line 89 ("Generation Failed: API Key issue.
    ...") is never on screen.  In every reachable state in which the page
    error is rendered, the error cell does not hold it: the same [catch]
    clause clears [isKeySet], which replaces the main page by the
    credential form, and the only way back sets the error cell to null. *)
Theorem key_issue_message_is_never_shown (h : Holder) (es : list Event) :
  let w := run (mount h) es in
  (isKeySet (state w) = true -> isKeyIssueText (error (state w)) = false)
  /\ (errorAlert (view w) = true -> isKeyIssueText (error (state w)) = false).
Proof.
  intros w.
  pose proof (inv_keyIssue_reachable (reachable_run h es)) as H.
  fold w in H. split; [exact H|].
  intros Ha. apply H. unfold view, render in Ha.
  destruct (isKeySet (state w)); [reflexivity | discriminate].
Qed.

(** The text is stored, though, whenever the failure is a credential
    failure; it is the form that is on screen then. *)
Example key_issue_message_is_stored_unseen :
  let w := step generatingA
             (GenerateSettled 1 (Rejected (ErrorObject "API Key not valid"))) in
  isKeyIssueText (error (state w)) = true
  /\ errorAlert (view w) = false
  /\ apiKeyInput (view w) = true
  /\ ApiKeyInput.errorShown (ApiKeyInput.propsFrom (state w)) = None.
Proof. vm_compute. repeat split. Qed.

Lemma key_issue_message_is_never_shown_witness :
  let w := run (mount None)
             (toGeneratingA
              ++ [GenerateSettled 1 (Rejected (ErrorObject "API Key not valid"));
                  SubmitApiKey "new-key"; InitializeSettled 2 (Fulfilled tt)]) in
  isKeySet (state w) = true /\ isKeyIssueText (error (state w)) = false.
Proof.
  pose proof (@key_issue_message_is_never_shown None
           (toGeneratingA
            ++ [GenerateSettled 1 (Rejected (ErrorObject "API Key not valid"));
                SubmitApiKey "new-key"; InitializeSettled 2 (Fulfilled tt)]))
    as H.
  cbv zeta in H. destruct H as [H _].
  assert (Hk : isKeySet (state (run (mount None)
           (toGeneratingA
            ++ [GenerateSettled 1 (Rejected (ErrorObject "API Key not valid"));
                SubmitApiKey "new-key"; InitializeSettled 2 (Fulfilled tt)])))
               = true) by (vm_compute; reflexivity).
  exact (conj Hk (H Hk)).
Defined.

(** Where the two buttons are live an image is selected. *)
Lemma buttons_offered_image w :
  Inv w ->
  mounted w && preview (view w) && negb (buttonsDisabled (view w)) = true ->
  uploadedImageFile (state w) <> None.
Proof.
  intros HI Hoff Hnone.
  destruct (Inv_image HI) as [Hfp _]. apply Hfp in Hnone.
  unfold view, render in Hoff. rewrite Hnone in Hoff.
  destruct (mounted w), (isKeySet (state w)); discriminate.
Qed.

Lemma no_upload_first_uiStep w e :
  Inv w ->
  error (state w) <> Some "Please upload an image first."%string ->
  error (state (uiStep w e)) <> Some "Please upload an image first."%string.
Proof.
  intros HI. unfold uiStep. destruct (offered w e) eqn:Hoff; [|trivial].
  assert (Hfile : e = ClickGenerate -> uploadedImageFile (state w) <> None)
    by (intros ->; exact (buttons_offered_image HI Hoff)).
  clear HI Hoff. revert Hfile.
  step_cases w e; intros Hfile; autorewrite with frame;
    eval_world; split_match; intros H;
    try assumption; try discriminate;
    try (cbn [append]; discriminate).
  now elim (Hfile eq_refl).
Qed.

(** X9: through the page, [handleGenerate] is only ever called with an
    image selected, so its guard of lines 71-74 never fires: wherever the
    "Generate Echo Image" button is live a file is selected, and in no
    state of a page-driven session does the error cell hold "Please upload
    an image first.". *)
Theorem upload_first_message_unreachable_through_page
    (h : Holder) (es : list Event) :
  let w := uiRun (mount h) es in
  (offered w ClickGenerate = true -> uploadedImageFile (state w) <> None)
  /\ error (state w) <> Some "Please upload an image first."%string.
Proof.
  intros w. split.
  - intros Hoff.
    apply buttons_offered_image; [|exact Hoff].
    apply Inv_reachable, uiReachable_reachable, uiReachable_uiRun.
  - subst w. generalize (uiReachable_uiRun h es).
    generalize (uiRun (mount h) es). intros w Hui.
    induction Hui as [h0 | w e Hui IH].
    + rewrite mount_eq. cbn. discriminate.
    + apply no_upload_first_uiStep; [|exact IH].
      now apply Inv_reachable, uiReachable_reachable.
Qed.

Lemma upload_first_message_unreachable_through_page_witness :
  let w := uiRun (mount None) (toReady ++ [ClickGenerate; UploadImage imgA]) in
  uploadedImageFile (state w) <> None
  /\ error (state w) <> Some "Please upload an image first."%string.
Proof.
  destruct (@upload_first_message_unreachable_through_page None
              (toReady ++ [ClickGenerate; UploadImage imgA])) as [H1 H2].
  split; [apply H1; vm_compute; reflexivity | exact H2].
Defined.

(* ================================================================== *)
(** ** Further properties: one generation attempt *)
(* ================================================================== *)

(** X10: when the remote call is fulfilled on the main page, locator and
    prompt are stored as returned and the spinner goes; the result panel
    is rendered exactly when both strings are non-empty.  A result with an
    empty locator or an empty prompt is stored but not displayed, and
    nothing reports it: the error cell is untouched and the session is
    back in ImageSelected (Ready when no image is selected any more). *)
Theorem fulfilled_generation_display
    (h : Holder) (es : list Event) (id : nat) (started : File)
    (result : GenerationResult) :
  let w := run (mount h) es in
  mounted w = true ->
  isKeySet (state w) = true ->
  lookupTask id (pending w) = Some (AwaitGenerate started) ->
  let w' := step w (GenerateSettled id (Fulfilled result)) in
  let displayable :=
    negb (imageUrl result =? "")%string
    && negb (finalPrompt result =? "")%string in
  generatedImageUrl (state w') = Some (imageUrl result)
  /\ generatedPrompt (state w') = Some (finalPrompt result)
  /\ isLoading (state w') = false
  /\ spinner (view w') = false
  /\ generatedImageDisplay (view w') = displayable
  /\ error (state w') = error (state w)
  /\ phase w' = (if displayable then Generated
                 else if truthy (uploadedImagePreview (state w))
                      then ImageSelected else Ready).
Proof.
  intros w Hm Hk Ht w' displayable.
  destruct (@step_generate_fulfilled w id started result Hm Ht)
    as (_ & Hs & _).
  fold w' in Hs.
  unfold phase, phaseOf, facts, view, render. rewrite Hs. eval_state.
  rewrite Hk. cbn [negb andb truthy bound generating resultPresent
                   imageSelected spinner generatedImageDisplay].
  fold displayable. rewrite andb_true_r.
  repeat split. 
Qed.

Lemma fulfilled_generation_display_witness :
  let w := run (mount None) toGeneratingA in
  let result := mkResult "u1" "" in
  let w' := step w (GenerateSettled 1 (Fulfilled result)) in
  let displayable :=
    negb (imageUrl result =? "")%string
    && negb (finalPrompt result =? "")%string in
  generatedImageUrl (state w') = Some (imageUrl result)
  /\ generatedPrompt (state w') = Some (finalPrompt result)
  /\ isLoading (state w') = false
  /\ spinner (view w') = false
  /\ generatedImageDisplay (view w') = displayable
  /\ error (state w') = error (state w)
  /\ phase w' = (if displayable then Generated
                 else if truthy (uploadedImagePreview (state w))
                      then ImageSelected else Ready).
Proof.
  apply (@fulfilled_generation_display None toGeneratingA 1 imgA
           (mkResult "u1" "")); vm_compute; reflexivity.
Defined.

(** With an empty prompt the session is silently back in ImageSelected. *)
Example empty_prompt_is_not_displayed :
  let w' := step generatingA (GenerateSettled 1 (Fulfilled (mkResult "u1" ""))) in
  phase w' = ImageSelected
  /\ generatedImageDisplay (view w') = false
  /\ errorAlert (view w') = false.
Proof. vm_compute. repeat split. Qed.

Lemma afterGenerationFailure_reports err s :
  error (afterGenerationFailure err s) <> None
  /\ isLoading (afterGenerationFailure err s) = false.
Proof.
  unfold afterGenerationFailure. destruct (isApiKeyIssue _); eval_state;
    split; [discriminate | reflexivity | discriminate | reflexivity].
Qed.

(** X11: one attempt makes at most two calls, in order: the encoding of
    the file that is selected at the click, then, only if the encoding
    succeeded, the remote call with the encoder's payload and that file's
    declared media type, whatever it is (nothing checks it).  A failed
    encoding ends the attempt: no remote call is made, the in-flight flag
    is cleared, an error is stored and nothing of the attempt stays
    pending. *)
Theorem generation_attempt_calls
    (h : Holder) (es : list Event) (file : File) (outcome : Settled string) :
  let w := run (mount h) es in
  mounted w = true ->
  uploadedImageFile (state w) = Some file ->
  let w1 := step w ClickGenerate in
  let w2 := step w1 (FileToBase64Settled (nextTask w) outcome) in
  (calls w1 = calls w ++ [CallFileToBase64 file]
   /\ pending w1 = pending w ++ [(nextTask w, AwaitFileToBase64 file)]
   /\ isLoading (state w1) = true
   /\ error (state w1) = None
   /\ generatedImageUrl (state w1) = None
   /\ generatedPrompt (state w1) = None)
  /\ match outcome with
     | Fulfilled base64Image =>
         calls w2 = calls w ++ [CallFileToBase64 file;
                                CallGenerate base64Image (type file)]
         /\ pending w2 = pending w ++ [(nextTask w, AwaitGenerate file)]
         /\ state w2 = state w1
     | Rejected err =>
         calls w2 = calls w ++ [CallFileToBase64 file]
         /\ pending w2 = pending w
         /\ state w2 = afterGenerationFailure err (state w1)
         /\ isLoading (state w2) = false
         /\ error (state w2) <> None
     end.
Proof.
  intros w Hm Hf w1 w2.
  assert (Hids : Forall (fun q => fst q < nextTask w) (pending w))
    by apply (Inv_ids (Inv_run es (Inv_mount h))).
  destruct (@step_generate_started w file Hm Hf) as (Hm1 & Hs1 & Hp1 & _ & Hc1).
  fold w1 in Hm1, Hs1, Hp1, Hc1.
  assert (Hl : lookupTask (nextTask w) (pending w1)
               = Some (AwaitFileToBase64 file))
    by (rewrite Hp1; apply lookupTask_fresh, Hids).
  split.
  - rewrite Hs1, Hp1, Hc1. eval_state. repeat split.
  - destruct outcome as [base64Image | err].
    + destruct (@step_encode_fulfilled w1 (nextTask w) file base64Image Hm1 Hl)
        as (_ & Hs2 & Hp2 & _ & Hc2).
      fold w2 in Hs2, Hp2, Hc2.
      rewrite Hc2, Hc1, Hp2, Hp1, Hs2, <- app_assoc.
      rewrite (replaceTask_older _ _ Hids) by lia.
      cbn [replaceTask app]. rewrite Nat.eqb_refl. repeat split.
    + destruct (@step_encode_rejected w1 (nextTask w) file err Hm1 Hl)
        as (_ & Hs2 & Hp2 & _ & _ & Hc2 & _).
      fold w2 in Hs2, Hp2, Hc2.
      destruct (afterGenerationFailure_reports err (state w1)) as [He Hload].
      rewrite Hc2, Hc1, Hp2, Hp1, Hs2.
      rewrite (removeTask_older _ Hids) by lia.
      cbn [removeTask]. rewrite Nat.eqb_refl, app_nil_r. repeat split; assumption.
Qed.

Lemma generation_attempt_calls_witness :
  let w := run (mount None) (toReady ++ [UploadImage (mkFile "notes.pdf" "application/pdf")]) in
  let file := mkFile "notes.pdf" "application/pdf" in
  let w1 := step w ClickGenerate in
  let w2 := step w1 (FileToBase64Settled (nextTask w) (Fulfilled "JVBERg==")) in
  (calls w1 = calls w ++ [CallFileToBase64 file]
   /\ pending w1 = pending w ++ [(nextTask w, AwaitFileToBase64 file)]
   /\ isLoading (state w1) = true
   /\ error (state w1) = None
   /\ generatedImageUrl (state w1) = None
   /\ generatedPrompt (state w1) = None)
  /\ (calls w2 = calls w ++ [CallFileToBase64 file;
                             CallGenerate "JVBERg==" (type file)]
      /\ pending w2 = pending w ++ [(nextTask w, AwaitGenerate file)]
      /\ state w2 = state w1).
Proof.
  apply (@generation_attempt_calls None
           (toReady ++ [UploadImage (mkFile "notes.pdf" "application/pdf")])
           (mkFile "notes.pdf" "application/pdf") (Fulfilled "JVBERg=="%string));
    vm_compute; reflexivity.
Defined.

(* ================================================================== *)
(** ** Further properties: the page with its form and its upload zone *)
(* ================================================================== *)

Lemma world_rendered p w' : Page.world (Page.rendered p w') = w'.
Proof. reflexivity. Qed.

(** The submit button is live only for a non-blank key and while nothing
    is validating. *)
Lemma submit_live (s : State) (localApiKey : string) :
  ApiKeyInput.submitDisabled (ApiKeyInput.propsFrom s) localApiKey = false ->
  isKeyValidating s = false
  /\ blank localApiKey = false
  /\ ApiKeyInput.handleSubmit (ApiKeyInput.propsFrom s) localApiKey
     = Some localApiKey.
Proof.
  unfold ApiKeyInput.submitDisabled, ApiKeyInput.handleSubmit,
    ApiKeyInput.propsFrom. cbn.
  destruct (isKeyValidating s); cbn; [discriminate|].
  intros H. repeat split.
  destruct (blank localApiKey) eqn:Hb; [|reflexivity].
  rewrite (trim_blank _ Hb) in H. discriminate.
Qed.

(** Every step of the page is a step of [App] that the page offers, or
    leaves [App] alone. *)
Lemma page_step_world p e :
  Page.world (Page.step p e) = Page.world p
  \/ exists e', offered (Page.world p) e' = true
                /\ (forall k, e' = SubmitApiKey k -> blank k = false)
                /\ Page.world (Page.step p e) = step (Page.world p) e'.
Proof.
  destruct p as [w local dragging]. destruct e; cbn [Page.step Page.world].
  - destruct (_ && _); now left.
  - destruct (Page.formShown w && _) eqn:E; [|now left].
    apply andb_true_iff in E as [Hshown Hlive].
    apply negb_true_iff in Hlive.
    destruct (submit_live _ _ Hlive) as (Hv & Hb & ->).
    right. exists (SubmitApiKey local). cbn [Page.rendered Page.world].
    split; [|split; [|reflexivity]].
    + unfold offered. unfold Page.formShown in Hshown.
      now rewrite Hshown, Hv.
    + now intros k [= <-].
  - destruct (Page.zoneShown w); now left.
  - destruct (Page.zoneShown w); now left.
  - destruct (Page.zoneShown w) eqn:Hshown; [|now left].
    cbn. destruct (ImageUpload.firstFile files) as [file|]; [|now left].
    right. exists (UploadImage file). repeat split; [exact Hshown | discriminate].
  - destruct (Page.zoneShown w) eqn:Hshown; [|now left].
    unfold ImageUpload.handleFileChange.
    destruct (ImageUpload.firstFile files) as [file|]; [|now left].
    right. exists (UploadImage file). repeat split; [exact Hshown | discriminate].
  - cbn. unfold uiStep. destruct (offered w ClickGenerate) eqn:E; [|now left].
    right. exists ClickGenerate. repeat split; [exact E | discriminate].
  - cbn. unfold uiStep. destruct (offered w ClickReselect) eqn:E; [|now left].
    right. exists ClickReselect. repeat split; [exact E | discriminate].
  - cbn. unfold uiStep. destruct (offered w ClickChangeApiKey) eqn:E; [|now left].
    right. exists ClickChangeApiKey. repeat split; [exact E | discriminate].
  - destruct (Page.isSettlement e) eqn:E; [|now left].
    right. exists e. cbn. destruct e; try discriminate; repeat split; discriminate.
  - right. exists Unmount. repeat split. discriminate.
Qed.

Lemma page_uiReachable h es :
  uiReachable (Page.world (Page.run (Page.initial h) es)).
Proof.
  assert (G : forall p, uiReachable (Page.world p) ->
                        uiReachable (Page.world (Page.run p es))).
  { induction es as [|e es IH]; intros p H; simpl; [assumption|].
    apply IH. destruct (page_step_world p e) as [-> | (e' & Hoff & _ & ->)];
      [assumption|].
    replace (step (Page.world p) e') with (uiStep (Page.world p) e')
      by (unfold uiStep; now rewrite Hoff).
    now constructor. }
  apply G. constructor.
Qed.

Lemma test_blank (k : string) :
  negb (truthy (Some (trim k))) = true -> blank k = true.
Proof.
  cbn [truthy]. rewrite negb_involutive. intros H.
  apply String.eqb_eq in H. now apply trim_empty_iff_blank.
Qed.

Lemma empty_key_message_step w e :
  (forall k, e = SubmitApiKey k -> blank k = false) ->
  apiKeyError (state w) <> Some "API Key cannot be empty."%string ->
  apiKeyError (state (step w e)) <> Some "API Key cannot be empty."%string.
Proof.
  step_cases w e; intros Hk; autorewrite with frame;
    eval_world; split_match; intros H;
    try assumption; try discriminate;
    try (cbn [append]; discriminate).
  apply test_blank in Heqb. rewrite (Hk _ eq_refl) in Heqb. discriminate.
Qed.

(** X12: through the credential form the local validation of
    [handleApiKeySubmit] never fires: the submit button is disabled for a
    blank key, so in no state of a session driven through the page does
    the credential error read "API Key cannot be empty.". *)
Theorem empty_key_message_unreachable_through_form
    (h : Holder) (es : list Page.Event) :
  let p := Page.run (Page.initial h) es in
  apiKeyError (state (Page.world p)) <> Some "API Key cannot be empty."%string
  /\ ApiKeyInput.errorShown (ApiKeyInput.propsFrom (state (Page.world p)))
     <> Some "API Key cannot be empty."%string.
Proof.
  intros p.
  assert (H : apiKeyError (state (Page.world p))
              <> Some "API Key cannot be empty."%string).
  { subst p.
    assert (G : forall q,
               apiKeyError (state (Page.world q))
               <> Some "API Key cannot be empty."%string ->
               apiKeyError (state (Page.world (Page.run q es)))
               <> Some "API Key cannot be empty."%string).
    { induction es as [|e es IH]; intros q Hq; simpl; [assumption|].
      apply IH.
      destruct (page_step_world q e) as [-> | (e' & _ & Hk & ->)];
        [assumption|].
      now apply empty_key_message_step. }
    apply G. cbn [Page.initial Page.world]. rewrite mount_eq. cbn. discriminate. }
  split; [exact H|].
  unfold ApiKeyInput.errorShown, ApiKeyInput.propsFrom. cbn.
  destruct (truthy (apiKeyError (state (Page.world p))));
    [exact H | discriminate].
Qed.

(** Pressing submit on a blank key does nothing at all. *)
Example blank_key_press_is_inert :
  let p := Page.run (Page.initial None) [Page.TypeKey "   "] in
  Page.step p Page.PressSubmit = p.
Proof. vm_compute. reflexivity. Qed.

Lemma formShown_after_submit w submittedKey :
  Page.formShown w = true -> blank submittedKey = false ->
  let w' := step w (SubmitApiKey submittedKey) in
  Page.formShown w' = true /\ isKeyValidating (state w') = true.
Proof.
  intros Hshown Hb w'.
  unfold Page.formShown in Hshown. apply andb_true_iff in Hshown as [Hm Hform].
  destruct (@step_submit_nonblank w submittedKey Hm (nonblank_trim _ Hb))
    as (Hm1 & Hs1 & _).
  fold w' in Hm1, Hs1. unfold Page.formShown, view, render in *.
  rewrite Hm1, Hs1. eval_state.
  split; [exact Hform | reflexivity].
Qed.

(** X13: while a validation is pending the credential form is inert:
    neither typing in the input nor pressing the button changes anything.
    In particular a second press sends nothing: pressing submit twice
    leaves the page exactly as pressing it once. *)
Theorem credential_form_is_inert_while_validating (p : Page.Page) :
  (Page.formShown (Page.world p) = true ->
   isKeyValidating (state (Page.world p)) = true ->
   Page.step p Page.PressSubmit = p
   /\ forall value, Page.step p (Page.TypeKey value) = p)
  /\ Page.step (Page.step p Page.PressSubmit) Page.PressSubmit
     = Page.step p Page.PressSubmit.
Proof.
  assert (Hinert : forall q,
             Page.formShown (Page.world q) = true ->
             isKeyValidating (state (Page.world q)) = true ->
             Page.step q Page.PressSubmit = q
             /\ forall value, Page.step q (Page.TypeKey value) = q).
  { intros [w local dragging] Hshown Hv. cbn [Page.world] in *.
    cbn [Page.step Page.world Page.localApiKey].
    unfold ApiKeyInput.submitDisabled, ApiKeyInput.inputDisabled,
      ApiKeyInput.propsFrom. cbn [ApiKeyInput.isLoading].
    rewrite Hshown, Hv. cbn. split; [reflexivity | intros; reflexivity]. }
  split; [apply Hinert|].
  destruct p as [w local dragging].
  cbn [Page.step Page.world Page.localApiKey].
  destruct (Page.formShown w && _) eqn:E.
  - apply andb_true_iff in E as [Hshown Hlive].
    apply negb_true_iff in Hlive.
    destruct (submit_live _ _ Hlive) as (_ & Hb & ->).
    destruct (@formShown_after_submit w local Hshown Hb) as [Hshown' Hv'].
    apply Hinert; assumption.
  - cbn [Page.step Page.world Page.localApiKey]. now rewrite E.
Qed.

Lemma credential_form_is_inert_while_validating_witness :
  let p := Page.run (Page.initial None)
             [Page.TypeKey "good-key"; Page.PressSubmit] in
  Page.step p Page.PressSubmit = p
  /\ Page.step p (Page.TypeKey "x") = p
  /\ List.length (calls (Page.world p)) = 1.
Proof.
  destruct (@credential_form_is_inert_while_validating
              (Page.run (Page.initial None)
                 [Page.TypeKey "good-key"; Page.PressSubmit])) as [H _].
  destruct H as [H1 H2]; [vm_compute; reflexivity | vm_compute; reflexivity |].
  split; [exact H1 | split; [apply H2 | vm_compute; reflexivity]].
Defined.

Lemma zoneShown_main w :
  Page.zoneShown w = true -> mounted w = true /\ isKeySet (state w) = true.
Proof.
  unfold Page.zoneShown, view, render. intros H.
  apply andb_true_iff in H as [Hm H]. split; [exact Hm|].
  destruct (isKeySet (state w)); [reflexivity | discriminate].
Qed.

Lemma zone_replaced_by_preview w file :
  Page.zoneShown w = true ->
  let w' := step w (UploadImage file) in
  uploadedImageFile (state w') = Some file
  /\ Page.zoneShown w' = false
  /\ preview (view w') = true.
Proof.
  intros Hshown w'. destruct (zoneShown_main w Hshown) as [Hm Hk].
  destruct (@step_upload w file Hm) as (Hm1 & Hs1 & _).
  fold w' in Hm1, Hs1. unfold Page.zoneShown, view, render.
  rewrite Hm1, Hs1. eval_state. rewrite Hk. cbn.
  repeat split; unfold objectURL; cbn; now rewrite ?andb_false_r.
Qed.

(** X14: the upload zone forwards the first file of a selection or of a
    drop and nothing else.  With no file (a missing or empty list) the
    session is not touched, a drop only taking the highlight away; with
    files, [App] selects the first one, the others are ignored, and the
    zone gives way to the preview.  Dragging over the zone highlights it;
    leaving it or dropping on it removes the highlight. *)
Theorem upload_zone_forwards_first_file
    (p : Page.Page) (files : option (list File)) :
  Page.zoneShown (Page.world p) = true ->
  let dropped := Page.step p (Page.Drop files) in
  let picked := Page.step p (Page.PickFiles files) in
  match files with
  | Some (file :: others) =>
      Page.world dropped = step (Page.world p) (UploadImage file)
      /\ Page.world picked = step (Page.world p) (UploadImage file)
      /\ uploadedImageFile (state (Page.world dropped)) = Some file
      /\ preview (view (Page.world dropped)) = true
      /\ Page.zoneShown (Page.world dropped) = false
  | Some [] | None =>
      Page.world dropped = Page.world p /\ picked = p
  end
  /\ Page.isDragging dropped = false
  /\ Page.isDragging (Page.step p Page.DragOver) = true
  /\ Page.isDragging (Page.step p Page.DragLeave) = false.
Proof.
  intros Hshown dropped picked. subst dropped picked.
  destruct p as [w local dragging]. cbn [Page.world] in Hshown.
  cbn [Page.step Page.world Page.localApiKey Page.isDragging].
  rewrite Hshown.
  unfold ImageUpload.handleDrop, ImageUpload.handleFileChange,
    ImageUpload.handleDragOver, ImageUpload.handleDragLeave.
  destruct files as [[|file others]|]; cbn [ImageUpload.firstFile];
    cbn [Page.rendered Page.world Page.isDragging]; try (repeat split; fail).
  destruct (@zone_replaced_by_preview w file Hshown) as (Hf & Hz & Hp).
  rewrite Hz. repeat split; assumption.
Qed.

Lemma upload_zone_forwards_first_file_witness :
  let p := Page.run (Page.initial None)
             [Page.TypeKey "good-key"; Page.PressSubmit;
              Page.Settled (InitializeSettled 0 (Fulfilled tt));
              Page.DragOver] in
  let dropped := Page.step p (Page.Drop (Some [imgA; imgB])) in
  let picked := Page.step p (Page.PickFiles (Some [imgA; imgB])) in
  (Page.world dropped = step (Page.world p) (UploadImage imgA)
   /\ Page.world picked = step (Page.world p) (UploadImage imgA)
   /\ uploadedImageFile (state (Page.world dropped)) = Some imgA
   /\ preview (view (Page.world dropped)) = true
   /\ Page.zoneShown (Page.world dropped) = false)
  /\ Page.isDragging dropped = false
  /\ Page.isDragging (Page.step p Page.DragOver) = true
  /\ Page.isDragging (Page.step p Page.DragLeave) = false.
Proof.
  apply (@upload_zone_forwards_first_file
           (Page.run (Page.initial None)
              [Page.TypeKey "good-key"; Page.PressSubmit;
               Page.Settled (InitializeSettled 0 (Fulfilled tt));
               Page.DragOver])
           (Some [imgA; imgB])).
  vm_compute; reflexivity.
Defined.


(* ================================================================== *)
(** ** Further properties: what is on screen *)
(* ================================================================== *)

Lemma validating_lookup id t l :
  lookupTask id l = Some t -> isValidation (id, t) = true ->
  filter isValidation l <> [].
Proof.
  intros Hl Hv E.
  pose proof (filter_validation_removeTask _ _ Hl Hv) as H.
  rewrite E in H. discriminate.
Qed.

Lemma prefix_append (p s : string) : String.prefix p (p ++ s)%string = true.
Proof.
  induction p as [|a p IH]; cbn [append]; [apply prefix_empty|].
  rewrite prefix_cons. destruct (ascii_dec a a) as [_|Hne];
    [exact IH | now elim Hne].
Qed.

Lemma inv_formError_mount h : inv_formError (mount h).
Proof. rewrite mount_eq. unfold inv_formError. now cbn. Qed.

Lemma inv_formError_uiStep w e :
  inv_validation w -> inv_formError w -> inv_formError (uiStep w e).
Proof.
  unfold uiStep. destruct (offered w e) eqn:Hoff; [|trivial].
  assert (Hidle : forall k, e = SubmitApiKey k ->
                            isKeyValidating (state w) = false)
    by (intros k ->; exact (submit_offered_idle _ _ Hoff)).
  clear Hoff. revert Hidle.
  unfold inv_validation, validating, inv_formError.
  step_cases w e; cbn [mounted state pending]; intros Hidle [_ Hflag] H;
    autorewrite with frame; try assumption;
    eval_world; split_match; intros Hor;
    try reflexivity; try (now apply H);
    try (destruct Hor; discriminate).
  all: try (apply H; destruct Hor as [Hor|Hor]; [now left | now right]).
  all: try (apply H; right; apply (Hflag eq_refl);
            eapply validating_lookup; eauto; fail).
  destruct Hor as [Hor|Hor]; [discriminate|].
  rewrite (Hidle _ eq_refl) in Hor. discriminate.
Qed.

Lemma inv_formError_uiReachable w : uiReachable w -> inv_formError w.
Proof.
  induction 1 as [h | w e Hui IH]; [apply inv_formError_mount|].
  apply inv_formError_uiStep; [|exact IH].
  now apply inv_validation_uiReachable.
Qed.

(** X15: in a session driven through the page, a generation that fails
    with a credential marker sends the user to the credential form with
    nothing to read: the message is stored in the page error, which the
    form does not render, and the form's own error is empty. *)
Theorem credential_failure_shows_no_message
    (h : Holder) (es : list Event) (id : nat) (started : File) (err : Thrown) :
  let w := uiRun (mount h) es in
  mounted w = true ->
  isKeySet (state w) = true ->
  lookupTask id (pending w) = Some (AwaitGenerate started) ->
  isApiKeyIssue (generationErrorMessage err) = true ->
  let w' := step w (GenerateSettled id (Rejected err)) in
  apiKeyInput (view w') = true
  /\ errorAlert (view w') = false
  /\ ApiKeyInput.errorShown (ApiKeyInput.propsFrom (state w')) = None
  /\ isKeyIssueText (error (state w')) = true.
Proof.
  intros w Hm Hk Ht Hissue w'.
  pose proof (inv_formError_uiReachable (uiReachable_uiRun h es)) as Hform.
  fold w in Hform. specialize (Hform (or_introl Hk)).
  destruct (@step_generate_rejected w id started err Hm Ht) as (_ & Hs & _).
  fold w' in Hs. unfold afterGenerationFailure in Hs. rewrite Hissue in Hs.
  unfold view, render, ApiKeyInput.errorShown, ApiKeyInput.propsFrom.
  rewrite Hs. eval_state. cbn [negb isKeySet ApiKeyInput.error apiKeyInput
                               errorAlert].
  rewrite Hform. cbn [truthy].
  repeat split. unfold isKeyIssueText, keyIssuePrefix, startsWith.
  apply prefix_append.
Qed.

Lemma credential_failure_shows_no_message_witness :
  let w := uiRun (mount None) toGeneratingA in
  let err := ErrorObject "API Key not valid" in
  let w' := step w (GenerateSettled 1 (Rejected err)) in
  apiKeyInput (view w') = true
  /\ errorAlert (view w') = false
  /\ ApiKeyInput.errorShown (ApiKeyInput.propsFrom (state w')) = None
  /\ isKeyIssueText (error (state w')) = true.
Proof.
  apply (@credential_failure_shows_no_message None toGeneratingA 1 imgA
           (ErrorObject "API Key not valid")); vm_compute; reflexivity.
Defined.

(** X16: in any reachable state in which the preview block, and with it
    the two buttons, is in the document, the spinner is shown exactly while
    the buttons are disabled, and the result panel is never shown together
    with the spinner or with disabled buttons. *)
Theorem spinner_matches_disabled_buttons (h : Holder) (es : list Event) :
  let w := run (mount h) es in
  preview (view w) = true ->
  spinner (view w) = buttonsDisabled (view w)
  /\ (generatedImageDisplay (view w) = true ->
      spinner (view w) = false /\ buttonsDisabled (view w) = false).
Proof.
  intros w Hp.
  pose proof (Inv_loading (Inv_run es (Inv_mount h))) as Hl.
  fold w in Hl. unfold inv_loading in Hl.
  revert Hp. unfold view, render.
  destruct (isKeySet (state w)); cbn; [intros _ | discriminate].
  destruct (isLoading (state w)) eqn:E; cbn.
  - destruct (Hl eq_refl) as [-> _]. cbn. split; [reflexivity|].
    rewrite ?andb_false_r. discriminate.
  - split; [reflexivity | auto].
Qed.

Lemma spinner_matches_disabled_buttons_witness :
  let w := run (mount None) toGeneratingA in
  spinner (view w) = buttonsDisabled (view w)
  /\ (generatedImageDisplay (view w) = true ->
      spinner (view w) = false /\ buttonsDisabled (view w) = false).
Proof.
  apply (@spinner_matches_disabled_buttons None toGeneratingA).
  vm_compute; reflexivity.
Defined.

(** Without the preview block there is no button to compare with: after
    "Change API Key" and a new credential during a generation the spinner
    is shown next to the upload zone. *)
Example spinner_without_buttons :
  let w := uiRun (mount None)
             (toGeneratingA
              ++ [ClickChangeApiKey; SubmitApiKey "new-key";
                  InitializeSettled 2 (Fulfilled tt)]) in
  spinner (view w) = true
  /\ preview (view w) = false
  /\ imageUpload (view w) = true.
Proof. vm_compute. repeat split. Qed.

Lemma empty_key_message_unreachable_through_form_witness :
  let p := Page.run (Page.initial None)
             [Page.TypeKey "   "; Page.PressSubmit;
              Page.TypeKey "bad-key"; Page.PressSubmit;
              Page.Settled (InitializeSettled 0 (Rejected NonError))] in
  apiKeyError (state (Page.world p)) <> Some "API Key cannot be empty."%string
  /\ ApiKeyInput.errorShown (ApiKeyInput.propsFrom (state (Page.world p)))
     <> Some "API Key cannot be empty."%string.
Proof.
  apply (@empty_key_message_unreachable_through_form None
           [Page.TypeKey "   "; Page.PressSubmit;
            Page.TypeKey "bad-key"; Page.PressSubmit;
            Page.Settled (InitializeSettled 0 (Rejected NonError))]).
Defined.
